(** * Verification of the chat service (package [service], file service.go)

    The service keeps a registry [streams : map[string]*Client]; every
    client owns a buffered channel of capacity 10, a last-activity time
    stamp and a token-bucket rate limiter.  [SendMessage] starts one
    goroutine per recipient, [GetMessage] waits on the client's channel
    with a 10 second timer, and a background loop evicts idle clients.

    The embedding is shallow.  Go pointers [*Client] are addresses into an
    explicit heap, so that a goroutine or a blocked receiver that still
    holds a client after it left the registry is represented faithfully.
    Goroutines started by [SendMessage] are kept in a pool of pending
    deliveries and are run one at a time, in any order, by explicit
    scheduling steps.  Time is the clock reading in nanoseconds. *)

From stdpp Require Import gmap strings list fin_maps.
From Stdlib Require Import ZArith Lia.

Local Open Scope Z_scope.

(** ** Package [time]: durations are counted in nanoseconds *)

Module time.
Definition Nanosecond : Z := 1.
Definition Second : Z := 1000000000 * Nanosecond.
Definition Minute : Z := 60 * Second.
End time.

(** ** Package [errcom] *)

Record CustomError := mkCustomError { Code : string; Err : string }.

Definition NewCustomError (code err : string) : CustomError :=
  {| Code := code; Err := err |}.

#[global] Instance CustomError_eq_dec : EqDecision CustomError.
Proof. solve_decision. Defined.

(** ** Package [model] *)

Record JoinRequest := mkJoinRequest { JoinRequest_ID : string }.
Record SendMessageRequest :=
  mkSendMessageRequest { SendMessageRequest_From : string;
                         SendMessageRequest_Message : string }.
Record LeaveRequest := mkLeaveRequest { LeaveRequest_ID : string }.
Record MessageRequest := mkMessageRequest { MessageRequest_ID : string }.

Record JoinResponse :=
  mkJoinResponse { JoinResponse_Success : bool; JoinResponse_Message : string }.
Record SendMessageResponse :=
  mkSendMessageResponse { SendMessageResponse_Success : bool;
                          SendMessageResponse_Message : string }.
Record LeaveResponse :=
  mkLeaveResponse { LeaveResponse_Success : bool; LeaveResponse_Message : string }.
Record MessageResponse := mkMessageResponse { MessageResponse_Message : string }.

(** ** Go channels of strings

    A buffered channel is its queue, its capacity and its closed flag. *)

Record Chan := mkChan { ch_buf : list string; ch_cap : nat; ch_closed : bool }.

(** [make(chan string, n)] *)
Definition make_chan (n : nat) : Chan :=
  {| ch_buf := []; ch_cap := n; ch_closed := false |}.

(** Run-time panics that the operations on channels and pointers raise. *)
Inductive PanicValue :=
| SendOnClosedChannel
| CloseOfClosedChannel
| NilDereference.

(** [select { case c <- m: default: }]: a send on a closed channel panics,
    a send on a channel with room enqueues, otherwise [default] is taken. *)
Inductive TrySend :=
| Sent (c : Chan)
| Dropped
| SendPanics.

Definition try_send (m : string) (c : Chan) : TrySend :=
  if ch_closed c then SendPanics
  else if (length (ch_buf c) <? ch_cap c)%nat
       then Sent {| ch_buf := ch_buf c ++ [m]; ch_cap := ch_cap c;
                    ch_closed := ch_closed c |}
       else Dropped.

(** [msg, ok := <-c]: buffered values are received first, also from a closed
    channel; an empty closed channel yields the zero value and [ok = false];
    an empty open channel is not ready. *)
Inductive TryRecv :=
| Received (msg : string) (ok : bool) (c : Chan)
| NotReady.

Definition try_recv (c : Chan) : TryRecv :=
  match ch_buf c with
  | m :: rest =>
      Received m true {| ch_buf := rest; ch_cap := ch_cap c; ch_closed := ch_closed c |}
  | [] => if ch_closed c then Received "" false c else NotReady
  end.

(** [close(c)]: closing a closed channel panics. *)
Definition close_chan (c : Chan) : option Chan :=
  if ch_closed c then None
  else Some {| ch_buf := ch_buf c; ch_cap := ch_cap c; ch_closed := true |}.

(** ** The rate limiter [rate.Limiter] *)

(** Modelled from the spec: [golang.org/x/time/rate] is an imported module
    whose source is not part of the repository.  The specification describes
    it as a token bucket with a capacity (burst) and a steady refill rate,
    kept as a per-client counter plus last-refill time stamp that is
    recomputed lazily on each check, and checked by a non-blocking
    check-and-consume.  Tokens are counted in billionths of a token, so that
    a limit of [r] tokens per second refills exactly [r] units per
    nanosecond.  The library keeps the counter in floating point and rounds
    the time to wait for a missing token down to whole nanoseconds: a check
    that comes one nanosecond before the token is due is granted when the
    rounding goes that way, and leaves the counter one unit below zero.
    [lim_early] says whether the rounding goes that way at the next check;
    it is not determined by the other fields. *)
Record Limiter :=
  mkLimiter { lim_limit : Z; lim_burst : Z; lim_tokens : Z; lim_last : Z;
              lim_early : bool }.

Definition set_early (lim : Limiter) (b : bool) : Limiter :=
  {| lim_limit := lim_limit lim; lim_burst := lim_burst lim;
     lim_tokens := lim_tokens lim; lim_last := lim_last lim; lim_early := b |}.

(** Modelled from the spec: [rate.NewLimiter(r, b)], a bucket of capacity
    [b] refilled at [r] tokens per second, which starts full. *)
Definition NewLimiter (r b : Z) : Limiter :=
  {| lim_limit := r; lim_burst := b; lim_tokens := b * time.Second; lim_last := 0;
     lim_early := false |}.

(** Modelled from the spec: the lazy recomputation at clock reading [now],
    giving the reference time and the tokens available, at most the burst. *)
Definition advance (now : Z) (lim : Limiter) : Z * Z :=
  let last := if now <? lim_last lim then now else lim_last lim in
  let elapsed := now - last in
  (last, Z.min (lim_burst lim * time.Second)
               (lim_tokens lim + elapsed * lim_limit lim)).

(** Modelled from the spec: [Allow()] at clock reading [now], the
    non-blocking check-and-consume; it takes one token if there is one, or
    if there is one but for a billionth and the rounding grants it; it never
    waits, and leaves the limiter as it is otherwise. *)
Definition Allow (now : Z) (lim : Limiter) : bool * Limiter :=
  let tokens := snd (advance now lim) - 1 * time.Second in
  if (0 <=? tokens) || (lim_early lim && (tokens =? -1))
  then (true, {| lim_limit := lim_limit lim; lim_burst := lim_burst lim;
                 lim_tokens := tokens; lim_last := now;
                 lim_early := lim_early lim |})
  else (false, lim).

(** ** Package [service] *)

Record Client :=
  mkClient { ID : string; Ch : Chan; LastSeen : Z; RateLimiter : Limiter }.

Definition set_Ch (c : Client) (ch : Chan) : Client :=
  {| ID := ID c; Ch := ch; LastSeen := LastSeen c; RateLimiter := RateLimiter c |}.
Definition set_LastSeen (c : Client) (t : Z) : Client :=
  {| ID := ID c; Ch := Ch c; LastSeen := t; RateLimiter := RateLimiter c |}.
Definition set_RateLimiter (c : Client) (l : Limiter) : Client :=
  {| ID := ID c; Ch := Ch c; LastSeen := LastSeen c; RateLimiter := l |}.

(** A [*Client] is an address in the heap.  The fields [Ch] and
    [RateLimiter] are assigned once, in [Join], so the channel and the
    limiter that they refer to are stored with the client. *)
Abbreviation ptr := nat (only parsing).

(** The service: the heap of clients ever allocated, the registry, and the
    goroutines started by [SendMessage] that have not run yet, each with the
    client and the message it captured. *)
Record chatService :=
  mkService { heap : list Client;
              streams : gmap string ptr;
              goroutines : list (ptr * string) }.

Definition set_heap (s : chatService) (h : list Client) : chatService :=
  {| heap := h; streams := streams s; goroutines := goroutines s |}.
Definition set_streams (s : chatService) (m : gmap string ptr) : chatService :=
  {| heap := heap s; streams := m; goroutines := goroutines s |}.
Definition set_goroutines (s : chatService) (g : list (ptr * string)) : chatService :=
  {| heap := heap s; streams := streams s; goroutines := g |}.

(** [*p = c] *)
Definition store (p : ptr) (c : Client) (s : chatService) : chatService :=
  set_heap s (<[p := c]> (heap s)).

(** What a call does: it returns a value and leaves a state, or it panics
    (a panic in any goroutine stops the process). *)
Inductive Outcome (A : Type) : Type :=
| Done (a : A) (s : chatService)
| Panic (v : PanicValue).
Arguments Done {A} a s.
Arguments Panic {A} v.

(** The pair [(response, error)] of the four operations. *)
Inductive Reply (A : Type) : Type :=
| Ok (a : A)
| Fail (e : CustomError).
Arguments Ok {A} a.
Arguments Fail {A} e.

Definition ErrMissingUserID := NewCustomError "ERR_MISSING_USER_ID" "user ID is required".
Definition ErrAlreadyJoined := NewCustomError "ERR_ALREADY_JOINED" "user already joined".
Definition ErrMissingField :=
  NewCustomError "ERR_MISSING_FIELD" "From and Message are required".
Definition ErrMessageTooLong :=
  NewCustomError "ERR_MESSAGE_TOO_LONG" "message must be under 500 characters".
Definition ErrSenderNotFound := NewCustomError "ERR_SENDER_NOT_FOUND" "sender not connected".
Definition ErrRateLimit := NewCustomError "ERR_RATE_LIMIT" "too many messages".
Definition ErrNoReceivers :=
  NewCustomError "ERR_NO_RECEIVERS" "no clients received the message".
Definition ErrUserNotFound := NewCustomError "ERR_USER_NOT_FOUND" "user not connected".
Definition ErrUserDisconnected :=
  NewCustomError "ERR_USER_DISCONNECTED" "user stream closed".
Definition ErrNoMessages := NewCustomError "ERR_NO_MESSAGES" "no messages received".

(** [NewChatService]: an empty registry (the cleanup loop is [cleanup]
    below, run at every tick). *)
Definition NewChatService : chatService :=
  {| heap := []; streams := ∅; goroutines := [] |}.

(** [Join] at clock reading [now]. *)
Definition Join (now : Z) (req : JoinRequest) (s : chatService)
  : Outcome (Reply JoinResponse) :=
  if decide (JoinRequest_ID req = "") then Done (Fail ErrMissingUserID) s
  else match streams s !! JoinRequest_ID req with
       | Some _ => Done (Fail ErrAlreadyJoined) s
       | None =>
           let client := {| ID := JoinRequest_ID req;
                            Ch := make_chan 10;
                            LastSeen := now;
                            RateLimiter := NewLimiter 1 5 |} in
           Done (Ok (mkJoinResponse true "User joined successfully"))
                {| heap := heap s ++ [client];
                   streams := <[JoinRequest_ID req := length (heap s)]> (streams s);
                   goroutines := goroutines s |}
       end.

(** The goroutines that the loop of [SendMessage] starts: one for every
    registered client other than the sender, each capturing the client and
    the formatted message. *)
Definition fanout (from message : string) (s : chatService) : list (ptr * string) :=
  (λ e : string * ptr, (e.2, message))
    <$> filter (λ e : string * ptr, e.1 ≠ from) (map_to_list (streams s)).

(** [SendMessage] at clock reading [now]. *)
Definition SendMessage (now : Z) (req : SendMessageRequest) (s : chatService)
  : Outcome (Reply SendMessageResponse) :=
  let from := SendMessageRequest_From req in
  let text := SendMessageRequest_Message req in
  if decide (from = "" ∨ text = "") then Done (Fail ErrMissingField) s
  else if (500 <? String.length text)%nat then Done (Fail ErrMessageTooLong) s
  else match streams s !! from with
       | None => Done (Fail ErrSenderNotFound) s
       | Some p =>
           match heap s !! p with
           | None => Panic NilDereference
           | Some sender =>
               let '(ok, lim) := Allow now (RateLimiter sender) in
               let s1 := store p (set_RateLimiter sender lim) s in
               if negb ok then Done (Fail ErrRateLimit) s1
               else
                 let message := from +:+ ": " +:+ text in
                 let started := fanout from message s1 in
                 let sentCount := length started in
                 let s2 := set_goroutines s1 (goroutines s1 ++ started) in
                 if (sentCount =? 0)%nat then Done (Fail ErrNoReceivers) s2
                 else Done (Ok (mkSendMessageResponse true "Message broadcasted to clients")) s2
           end
       end.

(** The body of a goroutine started by [SendMessage], for the client at [p]. *)
Definition deliver (g : ptr * string) (s : chatService) : Outcome unit :=
  match heap s !! g.1 with
  | None => Panic NilDereference
  | Some c =>
      match try_send g.2 (Ch c) with
      | Sent ch => Done tt (store g.1 (set_Ch c ch) s)
      | Dropped => Done tt s
      | SendPanics => Panic SendOnClosedChannel
      end
  end.

(** The scheduler runs the pending goroutine number [i]. *)
Definition run_goroutine (i : nat) (s : chatService) : Outcome unit :=
  match goroutines s !! i with
  | None => Done tt s
  | Some g => deliver g (set_goroutines s (delete i (goroutines s)))
  end.

(** The scheduler runs [n] pending goroutines, number [k] each time: these
    are the goroutines [k], [k+1], ... of the pool, in the order in which
    they were started. *)
Fixpoint run_goroutines (k n : nat) (s : chatService) : Outcome unit :=
  match n with
  | O => Done tt s
  | S n' => match run_goroutine k s with
            | Done _ s' => run_goroutines k n' s'
            | Panic v => Panic v
            end
  end.

(** [close(client.Ch)] for the client at [p]. *)
Definition close_client (p : ptr) (s : chatService) : Outcome unit :=
  match heap s !! p with
  | None => Panic NilDereference
  | Some c => match close_chan (Ch c) with
              | None => Panic CloseOfClosedChannel
              | Some ch => Done tt (store p (set_Ch c ch) s)
              end
  end.

(** [Leave]: the entry is deleted under the lock, then the channel is
    closed. *)
Definition Leave (req : LeaveRequest) (s : chatService) : Outcome (Reply LeaveResponse) :=
  if decide (LeaveRequest_ID req = "") then Done (Fail ErrMissingUserID) s
  else match streams s !! LeaveRequest_ID req with
       | None => Done (Fail ErrUserNotFound) s
       | Some p =>
           match close_client p (set_streams s (delete (LeaveRequest_ID req) (streams s))) with
           | Done _ s' => Done (Ok (mkLeaveResponse true "User disconnected successfully")) s'
           | Panic v => Panic v
           end
       end.

(** [GetMessage], first part: the validation, the lookup under the read
    lock and the assignment [client.LastSeen = time.Now()].  The call then
    holds the client [p], registered or not. *)
Definition GetMessage_lookup (now : Z) (req : MessageRequest) (s : chatService)
  : Outcome (Reply ptr) :=
  if decide (MessageRequest_ID req = "") then Done (Fail ErrMissingUserID) s
  else match streams s !! MessageRequest_ID req with
       | None => Done (Fail ErrUserNotFound) s
       | Some p =>
           match heap s !! p with
           | None => Panic NilDereference
           | Some client => Done (Ok p) (store p (set_LastSeen client now) s)
           end
       end.

(** A blocking [select] either is still waiting or has taken a case. *)
Inductive Wait (A : Type) : Type :=
| Blocked
| Ready (o : Outcome A).
Arguments Blocked {A}.
Arguments Ready {A} o.

(** [GetMessage], second part: the [select] on [client.Ch] and on
    [time.After(10 * time.Second)], observed [elapsed] nanoseconds after the
    timer was set.  When the channel case and the timer case are both ready
    the run time picks one of them; [pick_timer] is that choice. *)
Definition GetMessage_select (elapsed : Z) (pick_timer : bool) (p : ptr) (s : chatService)
  : Wait (Reply MessageResponse) :=
  let fired := 10 * time.Second <=? elapsed in
  match heap s !! p with
  | None => Ready (Panic NilDereference)
  | Some client =>
      match try_recv (Ch client) with
      | Received msg ok ch =>
          if fired && pick_timer then Ready (Done (Fail ErrNoMessages) s)
          else if ok
               then Ready (Done (Ok (mkMessageResponse msg)) (store p (set_Ch client ch) s))
               else Ready (Done (Fail ErrUserDisconnected) s)
      | NotReady =>
          if fired then Ready (Done (Fail ErrNoMessages) s) else Blocked
      end
  end.

(** [GetMessage] as one call during which nothing else runs: the channel
    case is taken at once when it is ready; otherwise the call stays blocked
    until the timer fires, and returns [ERR_NO_MESSAGES]. *)
Definition GetMessage (now : Z) (req : MessageRequest) (s : chatService)
  : Outcome (Reply MessageResponse) :=
  match GetMessage_lookup now req s with
  | Done (Ok p) s1 =>
      match GetMessage_select 0 false p s1 with
      | Ready o => o
      | Blocked => Done (Fail ErrNoMessages) s1
      end
  | Done (Fail e) s1 => Done (Fail e) s1
  | Panic v => Panic v
  end.

(** One iteration of the loop of [startCleanupLoop] over the registry, for
    the entry [e], at clock reading [now]. *)
Definition reap (now : Z) (o : Outcome unit) (e : string * ptr) : Outcome unit :=
  match o with
  | Panic v => Panic v
  | Done _ s =>
      match heap s !! e.2 with
      | None => Panic NilDereference
      | Some client =>
          if 5 * time.Minute <? now - LastSeen client
          then match close_client e.2 s with
               | Done _ s' => Done tt (set_streams s' (delete e.1 (streams s')))
               | Panic v => Panic v
               end
          else Done tt s
      end
  end.

(** The body of the cleanup loop for one tick of the ticker, under the
    write lock. *)
Definition cleanup (now : Z) (s : chatService) : Outcome unit :=
  foldl (reap now) (Done tt s) (map_to_list (streams s)).

(** [time.NewTicker(1 * time.Minute)]: the clock reading of tick [k >= 1]
    of a ticker created at [start]. *)
Definition tick (start : Z) (k : Z) : Z := start + k * (1 * time.Minute).

(** ** Runs of the service

    An event is a call of one of the four operations (its reply is
    discarded), the run of one pending goroutine, one tick of the cleanup
    loop, or the floating-point rounding of the limiter of the client at
    [p] turning out one way or the other. *)
Inductive Event :=
| EJoin (now : Z) (req : JoinRequest)
| ESendMessage (now : Z) (req : SendMessageRequest)
| ELeave (req : LeaveRequest)
| EGetMessage (now : Z) (req : MessageRequest)
| EGo (i : nat)
| ETick (now : Z)
| ERounding (p : ptr) (early : bool).

Definition forget {A : Type} (o : Outcome A) : Outcome unit :=
  match o with
  | Done _ s => Done tt s
  | Panic v => Panic v
  end.

(** The limiter of the client at [p] rounds as [early] says from now on. *)
Definition rounding (p : ptr) (early : bool) (s : chatService) : chatService :=
  match heap s !! p with
  | None => s
  | Some c => store p (set_RateLimiter c (set_early (RateLimiter c) early)) s
  end.

Definition step (e : Event) (s : chatService) : Outcome unit :=
  match e with
  | EJoin now req => forget (Join now req s)
  | ESendMessage now req => forget (SendMessage now req s)
  | ELeave req => forget (Leave req s)
  | EGetMessage now req => forget (GetMessage now req s)
  | EGo i => run_goroutine i s
  | ETick now => cleanup now s
  | ERounding p early => Done tt (rounding p early s)
  end.

Fixpoint run (es : list Event) (s : chatService) : Outcome unit :=
  match es with
  | [] => Done tt s
  | e :: es' => match step e s with
                | Done _ s' => run es' s'
                | Panic v => Panic v
                end
  end.

(** The client [c], at address [p], is registered as [id]. *)
Definition registered (s : chatService) (id : string) (p : ptr) (c : Client) : Prop :=
  streams s !! id = Some p ∧ heap s !! p = Some c.

(** The states in which every registered client is allocated, carries the
    identifier it is registered under, and has an open channel. *)
Definition wf (s : chatService) : Prop :=
  ∀ id p, streams s !! id = Some p →
    ∃ c, heap s !! p = Some c ∧ ID c = id ∧ ch_closed (Ch c) = false.

(** The channel of [c] once closed, and the state after the client [c]
    at [p], registered as [id], was removed from the registry and its
    channel closed: what [Leave] and the cleanup loop do to a client. *)
Definition closed_chan (c : Chan) : Chan :=
  {| ch_buf := ch_buf c; ch_cap := ch_cap c; ch_closed := true |}.

Definition evict (id : string) (p : ptr) (c : Client) (s : chatService) : chatService :=
  store p (set_Ch c (closed_chan (Ch c))) (set_streams s (delete id (streams s))).

(** The test of the cleanup loop:
    [time.Since(client.LastSeen) > 5*time.Minute]. *)
Definition stale (now : Z) (c : Client) : Prop := 5 * time.Minute < now - LastSeen c.

(** The client at [p] is registered as [id] and was last seen at [seen]. *)
Definition alive (s : chatService) (id : string) (p : ptr) (seen : Z) : Prop :=
  ∃ c, registered s id p c ∧ LastSeen c = seen.

(** The channels that [Join] makes: capacity 10, and so at most 10
    buffered messages. *)
Definition chan_ok (ch : Chan) : Prop :=
  ch_cap ch = 10%nat ∧ (length (ch_buf ch) ≤ 10)%nat.

(** The limiter states that [NewLimiter 1 5] and [Allow] produce: limit 1,
    burst 5, and between no token (but for the billionth of an early
    grant) and five. *)
Definition limiter_ok (lim : Limiter) : Prop :=
  lim_limit lim = 1 ∧ lim_burst lim = 5 ∧
  -1 ≤ lim_tokens lim ≤ 5 * time.Second.

Definition client_ok (c : Client) : Prop :=
  chan_ok (Ch c) ∧ limiter_ok (RateLimiter c).

Definition bounded (s : chatService) : Prop :=
  ∀ p c, heap s !! p = Some c → client_ok c.

(** What a non-blocking send of [m] leaves of the channel of client [c]. *)
Definition offer (m : string) (c : Client) : Client :=
  if (length (ch_buf (Ch c)) <? ch_cap (Ch c))%nat
  then set_Ch c (mkChan (ch_buf (Ch c) ++ [m]) (ch_cap (Ch c)) (ch_closed (Ch c)))
  else c.

(** No client is registered under the empty identifier. *)
Definition named (s : chatService) : Prop :=
  ∀ id p, streams s !! id = Some p → id ≠ "".

(** The states that the service goes through. *)
Definition reachable (s : chatService) : Prop :=
  ∃ es, run es NewChatService = Done tt s.

(** Calls of [SendMessage] made one after the other, each with its clock
    reading, and their replies in order. *)
Fixpoint send_all (calls : list (Z * SendMessageRequest)) (s : chatService)
  : Outcome (list (Reply SendMessageResponse)) :=
  match calls with
  | [] => Done [] s
  | (now, req) :: calls' =>
      match SendMessage now req s with
      | Done r s1 =>
          match send_all calls' s1 with
          | Done rs s2 => Done (r :: rs) s2
          | Panic v => Panic v
          end
      | Panic v => Panic v
      end
  end.

Definition succeeded {A : Type} (r : Reply A) : bool :=
  match r with
  | Ok _ => true
  | Fail _ => false
  end.

Fixpoint how_many {A : Type} (f : A → bool) (l : list A) : nat :=
  match l with
  | [] => O
  | x :: l' => if f x then S (how_many f l') else how_many f l'
  end.

Definition successes {A : Type} (rs : list (Reply A)) : nat := how_many succeeded rs.

(** Calls made one after the other from clock reading [lo] on and up to
    [hi]: the clock readings do not decrease. *)
Fixpoint issued (lo hi : Z) (calls : list (Z * SendMessageRequest)) : Prop :=
  match calls with
  | [] => True
  | call :: calls' => lo ≤ call.1 ≤ hi ∧ issued call.1 hi calls'
  end.

(** The replies of the calls that took a token from the limiter: the
    successful ones and those that found no receiver. *)
Definition took_token {A : Type} (r : Reply A) : bool :=
  match r with
  | Ok _ => true
  | Fail e => bool_decide (e = ErrNoReceivers)
  end.

Definition tokens_taken {A : Type} (rs : list (Reply A)) : nat := how_many took_token rs.

(** The tokens of a limiter with limit 1 and burst 5 that are available at
    clock reading [t]. *)
Definition available (t : Z) (lim : Limiter) : Z :=
  Z.min (5 * time.Second) (lim_tokens lim + Z.max 0 (t - lim_last lim)).

(** A call that passes the validation of [SendMessage] with sender [from]. *)
Definition valid_from (from : string) (req : SendMessageRequest) : Prop :=
  SendMessageRequest_From req = from ∧ from ≠ "" ∧
  SendMessageRequest_Message req ≠ "" ∧
  (String.length (SendMessageRequest_Message req) ≤ 500)%nat.

(** [n] calls of [GetMessage] made one after the other at clock reading
    [now], and their replies in order. *)
Fixpoint poll (n : nat) (now : Z) (req : MessageRequest) (s : chatService)
  : Outcome (list (Reply MessageResponse)) :=
  match n with
  | O => Done [] s
  | S n' =>
      match GetMessage now req s with
      | Done r s1 =>
          match poll n' now req s1 with
          | Done rs s2 => Done (r :: rs) s2
          | Panic v => Panic v
          end
      | Panic v => Panic v
      end
  end.

(** A run in which the client [id], last active at [seen], does not leave
    and, at every tick of the cleanup loop, has called [GetMessage] (or
    joined) no more than five minutes before. *)
Fixpoint polls_in_time (id : string) (seen : Z) (es : list Event) : Prop :=
  match es with
  | [] => True
  | EGetMessage now req :: es' =>
      if decide (MessageRequest_ID req = id)
      then polls_in_time id now es'
      else polls_in_time id seen es'
  | ETick now :: es' => now - seen ≤ 5 * time.Minute ∧ polls_in_time id seen es'
  | ELeave req :: es' => LeaveRequest_ID req ≠ id ∧ polls_in_time id seen es'
  | _ :: es' => polls_in_time id seen es'
  end.

(** The number of characters of a UTF-8 text: every byte but the
    continuation bytes [10xxxxxx] starts one. *)
Definition continuation (b : Ascii.ascii) : bool :=
  (N.land (Ascii.N_of_ascii b) 192 =? 128)%N.

Fixpoint utf8_chars (t : string) : nat :=
  match t with
  | EmptyString => O
  | String b t' => if continuation b then utf8_chars t' else S (utf8_chars t')
  end.

Fixpoint repeat_string (n : nat) (t : string) : string :=
  match n with
  | O => EmptyString
  | S n' => t +:+ repeat_string n' t
  end.

(** The letter e with an acute accent, U+00E9, in UTF-8: the bytes C3 A9. *)
Definition e_acute : string :=
  String (Ascii.ascii_of_nat 195) (String (Ascii.ascii_of_nat 169) EmptyString).

(** ** Sample runs *)

Definition run_state (es : list Event) : chatService :=
  match run es NewChatService with
  | Done _ s => s
  | Panic _ => NewChatService
  end.

Definition req_a := mkJoinRequest "a".
Definition req_b := mkJoinRequest "b".
Definition req_c := mkJoinRequest "c".
Definition hi_from_a := mkSendMessageRequest "a" "hi".

(** Client [a] has spent its five tokens at time 0. *)
Definition burst_spent : chatService :=
  run_state [EJoin 0 req_a; EJoin 0 req_b;
             ESendMessage 0 hi_from_a; ESendMessage 0 hi_from_a; ESendMessage 0 hi_from_a;
             ESendMessage 0 hi_from_a; ESendMessage 0 hi_from_a].

(** Five calls half a second later and a sixth at 1.1 seconds. *)
Definition six_calls : list (Z * SendMessageRequest) :=
  [(500000000, hi_from_a); (500000000, hi_from_a); (500000000, hi_from_a);
   (500000000, hi_from_a); (500000000, hi_from_a); (1100000000, hi_from_a)].


(** Two clients, [a] at address 0 and [b] at address 1, joined at time 0. *)
Definition two_clients : chatService := run_state [EJoin 0 req_a; EJoin 0 req_b].

(** The two clients, when the limiter of [a] rounds in favour of the
    caller. *)
Definition rounds_early : chatService :=
  run_state [EJoin 0 req_a; EJoin 0 req_b; ERounding 0 true].

(** Five calls at time 1 and a sixth 999999999 nanoseconds later. *)
Definition six_in_a_second : list (Z * SendMessageRequest) :=
  [(1, hi_from_a); (1, hi_from_a); (1, hi_from_a);
   (1, hi_from_a); (1, hi_from_a); (1000000000, hi_from_a)].

(** A single client. *)
Definition one_client : chatService := run_state [EJoin 0 req_a].

(** Ten messages for [b]: [a] and [c] each broadcast five, and the twenty
    goroutines run. *)
Definition ten_for_b : list Event :=
  [EJoin 0 req_a; EJoin 0 req_b; EJoin 0 req_c;
   ESendMessage 0 hi_from_a; ESendMessage 0 hi_from_a; ESendMessage 0 hi_from_a;
   ESendMessage 0 hi_from_a; ESendMessage 0 hi_from_a;
   ESendMessage 0 (mkSendMessageRequest "c" "yo");
   ESendMessage 0 (mkSendMessageRequest "c" "yo");
   ESendMessage 0 (mkSendMessageRequest "c" "yo");
   ESendMessage 0 (mkSendMessageRequest "c" "yo");
   ESendMessage 0 (mkSendMessageRequest "c" "yo");
   EGo 0; EGo 0; EGo 0; EGo 0; EGo 0; EGo 0; EGo 0; EGo 0; EGo 0; EGo 0;
   EGo 0; EGo 0; EGo 0; EGo 0; EGo 0; EGo 0; EGo 0; EGo 0; EGo 0; EGo 0].

Definition b_is_full : chatService := run_state ten_for_b.

Definition client_b_full : Client :=
  match heap b_is_full !! 1%nat with
  | Some c => c
  | None => mkClient "" (make_chan 0) 0 (NewLimiter 0 0)
  end.


(** ** Package [errcom]: the rendering of an error *)

(** [(e *CustomError).Error()]: [fmt.Sprintf("[%s] %s", e.Code, e.Err.Error())]. *)
Definition Error (e : CustomError) : string := "[" +:+ Code e +:+ "] " +:+ Err e.

(** The closing bracket, byte 93, and the texts that contain one. *)
Definition closing_bracket : Ascii.ascii := Ascii.ascii_of_nat 93.

Fixpoint has_bracket (t : string) : bool :=
  match t with
  | EmptyString => false
  | String b t' => if Ascii.eqb b closing_bracket then true else has_bracket t'
  end.

(** The ten errors that the service returns. *)
Definition service_errors : list CustomError :=
  [ErrMissingUserID; ErrAlreadyJoined; ErrMissingField; ErrMessageTooLong;
   ErrSenderNotFound; ErrRateLimit; ErrNoReceivers; ErrUserNotFound;
   ErrUserDisconnected; ErrNoMessages].

(** ** Package [main]: the four routes

    A handler answers with a status and a body, which is either
    [gin.H{"error": ...}] or the response of the service.  What
    [c.ShouldBindJSON(&req)] makes of the body of the request is given: the
    bound request, or nothing when the binding fails. *)

Module http.
Definition StatusOK : nat := 200.
Definition StatusBadRequest : nat := 400.
Definition StatusRequestTimeout : nat := 408.
End http.

Inductive Body (A : Type) : Type :=
| ErrorBody (error : string)
| JsonBody (a : A).
Arguments ErrorBody {A} error.
Arguments JsonBody {A} a.

Record Response (A : Type) : Type := mkResponse { status : nat; body : Body A }.
Arguments mkResponse {A} status body.
Arguments status {A} r.
Arguments body {A} r.

(** [POST /join] *)
Definition post_join (now : Z) (bound : option JoinRequest) (s : chatService)
  : Outcome (Response JoinResponse) :=
  match bound with
  | None => Done (mkResponse http.StatusBadRequest (ErrorBody "Invalid request")) s
  | Some req =>
      match Join now req s with
      | Done (Fail err) s' => Done (mkResponse http.StatusBadRequest (ErrorBody (Error err))) s'
      | Done (Ok res) s' => Done (mkResponse http.StatusOK (JsonBody res)) s'
      | Panic v => Panic v
      end
  end.

(** [POST /send] *)
Definition post_send (now : Z) (bound : option SendMessageRequest) (s : chatService)
  : Outcome (Response SendMessageResponse) :=
  match bound with
  | None => Done (mkResponse http.StatusBadRequest (ErrorBody "Invalid request")) s
  | Some req =>
      match SendMessage now req s with
      | Done (Fail err) s' => Done (mkResponse http.StatusBadRequest (ErrorBody (Error err))) s'
      | Done (Ok res) s' => Done (mkResponse http.StatusOK (JsonBody res)) s'
      | Panic v => Panic v
      end
  end.

(** [POST /leave] *)
Definition post_leave (bound : option LeaveRequest) (s : chatService)
  : Outcome (Response LeaveResponse) :=
  match bound with
  | None => Done (mkResponse http.StatusBadRequest (ErrorBody "Invalid request")) s
  | Some req =>
      match Leave req s with
      | Done (Fail err) s' => Done (mkResponse http.StatusBadRequest (ErrorBody (Error err))) s'
      | Done (Ok res) s' => Done (mkResponse http.StatusOK (JsonBody res)) s'
      | Panic v => Panic v
      end
  end.

(** [GET /receive/:id], where [id] is [c.Param("id")]; the router matches
    the route for a non-empty [id] only. *)
Definition get_receive (now : Z) (id : string) (s : chatService)
  : Outcome (Response MessageResponse) :=
  match GetMessage now (mkMessageRequest id) s with
  | Done (Fail err) s' => Done (mkResponse http.StatusRequestTimeout (ErrorBody (Error err))) s'
  | Done (Ok res) s' => Done (mkResponse http.StatusOK (JsonBody res)) s'
  | Panic v => Panic v
  end.

(** ** Further invariants *)

(** Every pending goroutine holds an allocated client. *)
Definition pending_ok (s : chatService) : Prop :=
  ∀ q m, (q, m) ∈ goroutines s → (q < length (heap s))%nat.

(** What can become of a client: its identifier and the capacity of its
    channel stay, and once the channel is closed it stays closed and only
    loses messages from the front. *)
Definition evolves (c c' : Client) : Prop :=
  ID c' = ID c
  ∧ ch_cap (Ch c') = ch_cap (Ch c)
  ∧ (ch_closed (Ch c) = true →
     ch_closed (Ch c') = true ∧ ch_buf (Ch c') `suffix_of` ch_buf (Ch c)).

(** Two broadcasts by [a], whose goroutines are pending. *)
Definition two_sent : chatService :=
  run_state [EJoin 0 req_a; EJoin 0 req_b;
             ESendMessage 1 (mkSendMessageRequest "a" "one");
             ESendMessage 2 (mkSendMessageRequest "a" "two")].

(** Client [a] has broadcast and [b] has left before the goroutine for it
    was scheduled. *)
Definition b_left : chatService :=
  run_state [EJoin 0 req_a; EJoin 0 req_b; ESendMessage 1 hi_from_a;
             ELeave (mkLeaveRequest "b")].

(** Client [b] has a message from [a] in its mailbox. *)
Definition b_has_mail : chatService :=
  run_state [EJoin 0 req_a; EJoin 0 req_b; ESendMessage 1 hi_from_a; EGo 0].

(** * Properties *)

(** Arithmetic on durations, with the units unfolded. *)
Ltac time_lia := unfold time.Minute, time.Second, time.Nanosecond in *; lia.

(** ** Channels *)

Lemma try_send_open m c :
  ch_closed c = false →
  try_send m c =
    if (length (ch_buf c) <? ch_cap c)%nat
    then Sent {| ch_buf := ch_buf c ++ [m]; ch_cap := ch_cap c; ch_closed := false |}
    else Dropped.
Proof. intros H. unfold try_send. rewrite H. reflexivity. Qed.

Lemma try_send_closed m c : ch_closed c = true → try_send m c = SendPanics.
Proof. intros H. unfold try_send. now rewrite H. Qed.

(** ** The validation of [SendMessage] *)

Section Validation.
Variables (now : Z) (req : SendMessageRequest) (s : chatService).
Let from := SendMessageRequest_From req.
Let text := SendMessageRequest_Message req.

Lemma SendMessage_missing_field :
  from = "" ∨ text = "" → SendMessage now req s = Done (Fail ErrMissingField) s.
Proof.
  intros H. unfold SendMessage. fold from text.
  destruct (decide (from = "" ∨ text = "")); [reflexivity | contradiction].
Qed.

Lemma SendMessage_too_long :
  from ≠ "" → text ≠ "" → (500 < String.length text)%nat →
  SendMessage now req s = Done (Fail ErrMessageTooLong) s.
Proof.
  intros Hf Ht Hl. unfold SendMessage. fold from text.
  destruct (decide (from = "" ∨ text = "")) as [[?|?]|_]; [contradiction..|].
  apply Nat.ltb_lt in Hl. rewrite Hl. reflexivity.
Qed.

(** Past the validation the call is the lookup of the sender and what
    follows it. *)
Lemma SendMessage_validated :
  from ≠ "" → text ≠ "" → (String.length text ≤ 500)%nat →
  SendMessage now req s =
    match streams s !! from with
    | None => Done (Fail ErrSenderNotFound) s
    | Some p =>
        match heap s !! p with
        | None => Panic NilDereference
        | Some sender =>
            let '(ok, lim) := Allow now (RateLimiter sender) in
            let s1 := store p (set_RateLimiter sender lim) s in
            if negb ok then Done (Fail ErrRateLimit) s1
            else
              let started := fanout from (from +:+ ": " +:+ text) s1 in
              let s2 := set_goroutines s1 (goroutines s1 ++ started) in
              if (length started =? 0)%nat then Done (Fail ErrNoReceivers) s2
              else Done (Ok (mkSendMessageResponse true "Message broadcasted to clients")) s2
        end
    end.
Proof.
  intros Hf Ht Hl. unfold SendMessage. fold from text.
  destruct (decide (from = "" ∨ text = "")) as [[?|?]|_]; [contradiction..|].
  assert (Hb : (500 <? String.length text)%nat = false) by (apply Nat.ltb_ge; lia).
  rewrite Hb. reflexivity.
Qed.
End Validation.

Lemma SendMessage_reply_after_validation now req s r s' :
  SendMessageRequest_From req ≠ "" → SendMessageRequest_Message req ≠ "" →
  (String.length (SendMessageRequest_Message req) ≤ 500)%nat →
  SendMessage now req s = Done r s' →
  r ≠ Fail ErrMissingField ∧ r ≠ Fail ErrMessageTooLong.
Proof.
  intros Hf Ht Hl. rewrite SendMessage_validated by assumption.
  destruct (streams s !! _) as [p|]; [|intros [= <- <-]; split; discriminate].
  destruct (heap s !! p) as [c|]; [|discriminate].
  destruct (Allow now (RateLimiter c)) as [[|] lim]; simpl.
  - destruct (_ =? _)%nat; intros [= <- <-]; split; discriminate.
  - intros [= <- <-]; split; discriminate.
Qed.

Lemma length_repeat_string n t :
  String.length (repeat_string n t) = (n * String.length t)%nat.
Proof.
  induction n as [|n IH]; simpl; [reflexivity|].
  rewrite <- IH. clear IH. generalize (repeat_string n t) as u.
  induction t as [|b t IHt]; intros u; simpl; [reflexivity|]. now rewrite IHt.
Qed.

(** C4: [SendMessage] fails with [ERR_MISSING_FIELD] when [From] or
    [Message] is empty, and otherwise with [ERR_MESSAGE_TOO_LONG] when the
    message is longer than 500; a message of length at most 500 passes to
    the lookup of the sender.  In particular a message of length 501 is
    refused and a message of length exactly 500 is broadcast. *)
Theorem C4_SendMessage_validation :
  (∀ now req s,
    let from := SendMessageRequest_From req in
    let text := SendMessageRequest_Message req in
    (from = "" ∨ text = "" → SendMessage now req s = Done (Fail ErrMissingField) s)
    ∧ (from ≠ "" ∧ text ≠ "" ∧ (500 < String.length text)%nat →
       SendMessage now req s = Done (Fail ErrMessageTooLong) s)
    ∧ (from ≠ "" ∧ text ≠ "" ∧ (String.length text ≤ 500)%nat →
       (streams s !! from = None →
        SendMessage now req s = Done (Fail ErrSenderNotFound) s)
       ∧ (∀ r s', SendMessage now req s = Done r s' →
                  r ≠ Fail ErrMissingField ∧ r ≠ Fail ErrMessageTooLong)))
  ∧ String.length (repeat_string 500 "x") = 500%nat
  ∧ (∃ s', SendMessage 0 (mkSendMessageRequest "a" (repeat_string 500 "x")) two_clients
           = Done (Ok (mkSendMessageResponse true "Message broadcasted to clients")) s')
  ∧ String.length (repeat_string 501 "x") = 501%nat
  ∧ SendMessage 0 (mkSendMessageRequest "a" (repeat_string 501 "x")) two_clients
    = Done (Fail ErrMessageTooLong) two_clients.
Proof.
  split;
    [intros now req s from text; repeat split
    |split; [|split; [eexists|split]]; vm_compute; reflexivity].
  - apply SendMessage_missing_field.
  - intros (Hf & Ht & Hl). now apply SendMessage_too_long.
  - intros Hn. destruct H as (Hf & Ht & Hl).
    rewrite SendMessage_validated by assumption. fold from. now rewrite Hn.
  - destruct H as (Hf & Ht & Hl).
    eapply SendMessage_reply_after_validation in H0; [apply H0|assumption..].
  - destruct H as (Hf & Ht & Hl).
    eapply SendMessage_reply_after_validation in H0; [apply H0|assumption..].
Qed.

(** C10: the limit of [SendMessage] counts bytes: 251 letters U+00E9 are 251
    characters but 502 bytes of UTF-8, and are refused with
    [ERR_MESSAGE_TOO_LONG]. *)
Theorem C10_length_limit_counts_bytes :
  ∃ text,
    (utf8_chars text ≤ 500)%nat ∧ (500 < String.length text)%nat ∧
    ∀ now from s, from ≠ "" →
      SendMessage now (mkSendMessageRequest from text) s
      = Done (Fail ErrMessageTooLong) s.
Proof.
  exists (repeat_string 251 e_acute). split; [|split].
  - vm_compute. lia.
  - rewrite length_repeat_string. simpl. lia.
  - intros now from s Hf.
    apply SendMessage_too_long;
      cbn [SendMessageRequest_From SendMessageRequest_Message].
    + assumption.
    + discriminate.
    + rewrite length_repeat_string. simpl. lia.
Qed.

(** ** The heap *)

Lemma store_streams p c s : streams (store p c s) = streams s.
Proof. reflexivity. Qed.

Lemma store_goroutines p c s : goroutines (store p c s) = goroutines s.
Proof. reflexivity. Qed.

Lemma store_lookup_eq p c c0 s :
  heap s !! p = Some c0 → heap (store p c s) !! p = Some c.
Proof.
  intros H. unfold store. simpl. apply list_lookup_insert_eq.
  eapply lookup_lt_Some, H.
Qed.

Lemma store_lookup_ne p q c s : p ≠ q → heap (store p c s) !! q = heap s !! q.
Proof. intros H. unfold store. simpl. now apply list_lookup_insert_ne. Qed.

Lemma store_store p c c' s : store p c (store p c' s) = store p c s.
Proof. unfold store, set_heap. simpl. now rewrite list_insert_insert_eq. Qed.

Lemma store_same p c s : heap s !! p = Some c → store p c s = s.
Proof.
  intros H. unfold store, set_heap. rewrite list_insert_id by assumption.
  now destruct s.
Qed.

Lemma store_length p c s : length (heap (store p c s)) = length (heap s).
Proof. unfold store. simpl. apply length_insert. Qed.

(** The rounding of a limiter touches neither the registry, nor the pending
    goroutines, nor any field of a client but its limiter. *)
Lemma rounding_streams p b s : streams (rounding p b s) = streams s.
Proof. unfold rounding. destruct (heap s !! p); [apply store_streams|reflexivity]. Qed.

Lemma rounding_goroutines p b s : goroutines (rounding p b s) = goroutines s.
Proof. unfold rounding. destruct (heap s !! p); [apply store_goroutines|reflexivity]. Qed.

Lemma rounding_lookup p b s q :
  heap (rounding p b s) !! q
  = if decide (p = q)
    then (λ c, set_RateLimiter c (set_early (RateLimiter c) b)) <$> heap s !! q
    else heap s !! q.
Proof.
  unfold rounding. destruct (decide (p = q)) as [<-|Hne].
  - destruct (heap s !! p) as [c|] eqn:E; [|now rewrite E].
    now rewrite (store_lookup_eq p _ c s E).
  - destruct (heap s !! p); [now apply store_lookup_ne|reflexivity].
Qed.


(** ** The fan-out of [SendMessage] *)

Lemma fanout_store from m p c s : fanout from m (store p c s) = fanout from m s.
Proof. reflexivity. Qed.

Lemma elem_of_fanout from m s q m' :
  (q, m') ∈ fanout from m s ↔
  m' = m ∧ ∃ id, id ≠ from ∧ streams s !! id = Some q.
Proof.
  unfold fanout. rewrite list_elem_of_fmap. split.
  - intros ([id q'] & [= -> ->] & Hin). apply list_elem_of_filter in Hin as [Hne Hin].
    apply elem_of_map_to_list in Hin. split; [reflexivity|]. now exists id.
  - intros (-> & id & Hne & Hid). exists (id, q). split; [reflexivity|].
    apply list_elem_of_filter. split; [exact Hne|]. now apply elem_of_map_to_list.
Qed.

Lemma fanout_nil from m s :
  (∀ id, id ≠ from → streams s !! id = None) → fanout from m s = [].
Proof.
  intros H. destruct (fanout from m s) as [|[q m'] l] eqn:E; [reflexivity|].
  assert (Hin : (q, m') ∈ fanout from m s) by (rewrite E; left).
  apply elem_of_fanout in Hin as (_ & id & Hne & Hid).
  rewrite H in Hid by assumption. discriminate.
Qed.


(** ** [SendMessage] for a registered sender *)

Section Registered_sender.
Variables (now : Z) (req : SendMessageRequest) (s : chatService).
Variables (from : string) (p : ptr) (sender : Client).
Hypothesis Hvalid : valid_from from req.
Hypothesis Hreg : registered s from p sender.

Let message := from +:+ ": " +:+ SendMessageRequest_Message req.

Lemma SendMessage_refused :
  (Allow now (RateLimiter sender)).1 = false →
  SendMessage now req s = Done (Fail ErrRateLimit) s.
Proof using Hvalid Hreg.
  destruct Hvalid as (Hfrom & Hne & Ht & Hl), Hreg as [Hs Hh]. subst from.
  intros HA. rewrite SendMessage_validated by assumption.
  rewrite Hs, Hh. unfold Allow in *.
  destruct (_ || _); [discriminate|]. simpl.
  rewrite store_same; [reflexivity|]. now destruct sender.
Qed.

Lemma SendMessage_allowed :
  (Allow now (RateLimiter sender)).1 = true →
  let s1 := store p (set_RateLimiter sender (Allow now (RateLimiter sender)).2) s in
  let s2 := set_goroutines s1 (goroutines s ++ fanout from message s) in
  SendMessage now req s =
    if decide (fanout from message s = [])
    then Done (Fail ErrNoReceivers) s2
    else Done (Ok (mkSendMessageResponse true "Message broadcasted to clients")) s2.
Proof using Hvalid Hreg.
  destruct Hvalid as (Hfrom & Hne & Ht & Hl), Hreg as [Hs Hh]. subst from.
  intros HA. rewrite SendMessage_validated by assumption.
  rewrite Hs, Hh. destruct (Allow now (RateLimiter sender)) as [ok lim].
  simpl in HA. subst ok. cbn [negb fst snd]. rewrite fanout_store.
  fold message. rewrite store_goroutines.
  destruct (fanout _ message s); reflexivity.
Qed.
End Registered_sender.

(** C6: a registered sender with no other client registered gets
    [ERR_NO_RECEIVERS] for a valid call that the limiter allows, and the
    token that [Allow] took stays taken: the limiter of the sender is the one
    [Allow] left, one token below what was available. *)
Theorem C6_no_receivers_keeps_token_spent now req s from p sender :
  valid_from from req →
  registered s from p sender →
  (∀ id, id ≠ from → streams s !! id = None) →
  (Allow now (RateLimiter sender)).1 = true →
  ∃ s' sender',
    SendMessage now req s = Done (Fail ErrNoReceivers) s'
    ∧ streams s' = streams s
    ∧ heap s' !! p = Some sender'
    ∧ RateLimiter sender' = (Allow now (RateLimiter sender)).2
    ∧ lim_tokens (RateLimiter sender')
      = (advance now (RateLimiter sender)).2 - 1 * time.Second.
Proof.
  intros Hv Hr Hnone HA.
  eexists _, (set_RateLimiter sender (Allow now (RateLimiter sender)).2).
  split; [|split; [|split; [|split]]].
  - erewrite SendMessage_allowed by eassumption.
    rewrite fanout_nil by assumption.
    destruct (decide _); [reflexivity|congruence].
  - reflexivity.
  - cbn [heap set_goroutines]. eapply store_lookup_eq. apply Hr.
  - reflexivity.
  - cbn [RateLimiter set_RateLimiter]. unfold Allow in *.
    destruct (_ || _); [reflexivity|discriminate].
Qed.

(** A single client [a] at time 0: the call is refused for want of
    receivers and leaves four of the five tokens. *)
Lemma C6_no_receivers_witness :
  ∃ s' sender',
    SendMessage 0 hi_from_a one_client = Done (Fail ErrNoReceivers) s'
    ∧ streams s' = streams one_client
    ∧ heap s' !! 0%nat = Some sender'
    ∧ RateLimiter sender' = (Allow 0 (NewLimiter 1 5)).2
    ∧ lim_tokens (RateLimiter sender')
      = (advance 0 (NewLimiter 1 5)).2 - 1 * time.Second.
Proof.
  apply (C6_no_receivers_keeps_token_spent 0 hi_from_a one_client "a" 0%nat
           (mkClient "a" (make_chan 10) 0 (NewLimiter 1 5))).
  - repeat split; [discriminate|discriminate|vm_compute; lia].
  - split; vm_compute; reflexivity.
  - intros id Hne. change (streams one_client) with ({[ "a" := 0%nat ]} : gmap string ptr).
    now apply lookup_singleton_ne.
  - vm_compute. reflexivity.
Defined.

(** ** [GetMessage] *)

Lemma timer_not_fired elapsed :
  elapsed < 10 * time.Second → (10 * time.Second <=? elapsed) = false.
Proof. intros H. now apply Z.leb_gt. Qed.

Lemma timer_fired elapsed :
  10 * time.Second ≤ elapsed → (10 * time.Second <=? elapsed) = true.
Proof. intros H. now apply Z.leb_le. Qed.

Lemma GetMessage_lookup_registered now req s p c :
  MessageRequest_ID req ≠ "" →
  registered s (MessageRequest_ID req) p c →
  GetMessage_lookup now req s = Done (Ok p) (store p (set_LastSeen c now) s).
Proof.
  intros Hne [Hs Hh]. unfold GetMessage_lookup.
  destruct (decide _); [contradiction|]. now rewrite Hs, Hh.
Qed.

Lemma GetMessage_lookup_absent now req s :
  MessageRequest_ID req ≠ "" →
  streams s !! MessageRequest_ID req = None →
  GetMessage_lookup now req s = Done (Fail ErrUserNotFound) s.
Proof.
  intros Hne Hs. unfold GetMessage_lookup.
  destruct (decide _); [contradiction|]. now rewrite Hs.
Qed.

(** The [select] by cases on the channel of the client that the call
    holds. *)
Section Select.
Variables (elapsed : Z) (pick_timer : bool) (p : ptr) (s : chatService) (c : Client).
Hypothesis Hheap : heap s !! p = Some c.

Lemma select_message m rest :
  ch_buf (Ch c) = m :: rest →
  elapsed < 10 * time.Second →
  GetMessage_select elapsed pick_timer p s =
    Ready (Done (Ok (mkMessageResponse m))
             (store p (set_Ch c (mkChan rest (ch_cap (Ch c)) (ch_closed (Ch c)))) s)).
Proof using Hheap.
  intros Hb Ht. unfold GetMessage_select, try_recv.
  rewrite Hheap, Hb, timer_not_fired by assumption. reflexivity.
Qed.

Lemma select_closed :
  ch_buf (Ch c) = [] → ch_closed (Ch c) = true →
  elapsed < 10 * time.Second →
  GetMessage_select elapsed pick_timer p s = Ready (Done (Fail ErrUserDisconnected) s).
Proof using Hheap.
  intros Hb Hc Ht. unfold GetMessage_select, try_recv.
  rewrite Hheap, Hb, Hc, timer_not_fired by assumption. reflexivity.
Qed.

Lemma select_blocked :
  ch_buf (Ch c) = [] → ch_closed (Ch c) = false →
  elapsed < 10 * time.Second →
  GetMessage_select elapsed pick_timer p s = Blocked.
Proof using Hheap.
  intros Hb Hc Ht. unfold GetMessage_select, try_recv.
  rewrite Hheap, Hb, Hc, timer_not_fired by assumption. reflexivity.
Qed.

Lemma select_timeout :
  ch_buf (Ch c) = [] → ch_closed (Ch c) = false →
  10 * time.Second ≤ elapsed →
  GetMessage_select elapsed pick_timer p s = Ready (Done (Fail ErrNoMessages) s).
Proof using Hheap.
  intros Hb Hc Ht. unfold GetMessage_select, try_recv.
  rewrite Hheap, Hb, Hc, timer_fired by assumption. reflexivity.
Qed.

(** Once the timer has fired the [select] returns, with one of the three
    replies. *)
Lemma select_returns :
  10 * time.Second ≤ elapsed →
  ∃ r s', GetMessage_select elapsed pick_timer p s = Ready (Done r s')
          ∧ ((∃ m, r = Ok (mkMessageResponse m))
             ∨ r = Fail ErrUserDisconnected ∨ r = Fail ErrNoMessages).
Proof using Hheap.
  intros Ht. unfold GetMessage_select, try_recv.
  rewrite Hheap, timer_fired by assumption.
  destruct (ch_buf (Ch c)) as [|m rest]; [destruct (ch_closed (Ch c))|];
    cbn [andb]; destruct pick_timer; eauto 8.
Qed.

(** Whenever the [select] returns, it is with one of the three replies. *)
Lemma select_replies o :
  GetMessage_select elapsed pick_timer p s = Ready o →
  ∃ r s', o = Done r s'
          ∧ ((∃ m, r = Ok (mkMessageResponse m))
             ∨ r = Fail ErrUserDisconnected ∨ r = Fail ErrNoMessages).
Proof using Hheap.
  unfold GetMessage_select, try_recv. rewrite Hheap.
  destruct (ch_buf (Ch c)) as [|m rest]; [destruct (ch_closed (Ch c))|];
    destruct (10 * time.Second <=? elapsed), pick_timer; cbn [andb];
    intros [= <-]; eauto 8.
Qed.
End Select.

(** [GetMessage] for a registered client, by cases on its channel. *)
Lemma GetMessage_registered now req s p c :
  MessageRequest_ID req ≠ "" →
  registered s (MessageRequest_ID req) p c →
  GetMessage now req s =
    match ch_buf (Ch c) with
    | m :: rest =>
        Done (Ok (mkMessageResponse m))
             (store p (set_Ch (set_LastSeen c now)
                         (mkChan rest (ch_cap (Ch c)) (ch_closed (Ch c)))) s)
    | [] =>
        Done (Fail (if ch_closed (Ch c) then ErrUserDisconnected else ErrNoMessages))
             (store p (set_LastSeen c now) s)
    end.
Proof.
  intros Hne Hr. unfold GetMessage.
  rewrite (GetMessage_lookup_registered now req s p c) by assumption.
  assert (Hh : heap (store p (set_LastSeen c now) s) !! p = Some (set_LastSeen c now))
    by (eapply store_lookup_eq, Hr).
  assert (H0 : 0 < 10 * time.Second) by time_lia.
  destruct (ch_buf (Ch c)) as [|m rest] eqn:Hb.
  - destruct (ch_closed (Ch c)) eqn:Hc.
    + erewrite select_closed; eauto.
    + erewrite select_blocked; eauto.
  - erewrite select_message by eauto. cbn [Ch set_LastSeen].
    now rewrite store_store.
Qed.

Lemma GetMessage_absent now req s :
  MessageRequest_ID req ≠ "" →
  streams s !! MessageRequest_ID req = None →
  GetMessage now req s = Done (Fail ErrUserNotFound) s.
Proof.
  intros Hne Hs. unfold GetMessage. now rewrite GetMessage_lookup_absent.
Qed.

(** ** [Leave] *)

Lemma close_client_open p c s :
  heap s !! p = Some c → ch_closed (Ch c) = false →
  close_client p s = Done tt (store p (set_Ch c (closed_chan (Ch c))) s).
Proof.
  intros Hh Hc. unfold close_client, close_chan. now rewrite Hh, Hc.
Qed.

Lemma Leave_registered req s p c :
  LeaveRequest_ID req ≠ "" →
  registered s (LeaveRequest_ID req) p c →
  ch_closed (Ch c) = false →
  Leave req s =
    Done (Ok (mkLeaveResponse true "User disconnected successfully"))
         (evict (LeaveRequest_ID req) p c s).
Proof.
  intros Hne [Hs Hh] Hc. unfold Leave.
  destruct (decide _); [contradiction|]. rewrite Hs.
  now erewrite close_client_open by eauto.
Qed.

Lemma Leave_absent req s :
  LeaveRequest_ID req ≠ "" →
  streams s !! LeaveRequest_ID req = None →
  Leave req s = Done (Fail ErrUserNotFound) s.
Proof.
  intros Hne Hs. unfold Leave. destruct (decide _); [contradiction|]. now rewrite Hs.
Qed.

Lemma wf_registered s id p c :
  wf s → registered s id p c → ID c = id ∧ ch_closed (Ch c) = false.
Proof.
  intros Hwf [Hs Hh]. destruct (Hwf id p Hs) as (c' & Hh' & Hid & Hc).
  rewrite Hh in Hh'. injection Hh' as <-. now split.
Qed.

(** ** The registry invariant *)

Lemma wf_NewChatService : wf NewChatService.
Proof. intros id p H. simpl in H. now rewrite lookup_empty in H. Qed.

Lemma wf_unique s id1 id2 p :
  wf s → streams s !! id1 = Some p → streams s !! id2 = Some p → id1 = id2.
Proof.
  intros Hwf H1 H2.
  destruct (Hwf _ _ H1) as (c1 & Hc1 & <- & _).
  destruct (Hwf _ _ H2) as (c2 & Hc2 & <- & _). congruence.
Qed.

Lemma wf_set_goroutines s g : wf s → wf (set_goroutines s g).
Proof. intros Hwf. exact Hwf. Qed.

(** Updating a client in place keeps the invariant when the identifier and
    the closed flag are kept. *)
Lemma wf_store s p c c' :
  wf s → heap s !! p = Some c →
  ID c' = ID c → ch_closed (Ch c') = ch_closed (Ch c) →
  wf (store p c' s).
Proof.
  intros Hwf Hh Hid Hcl id q Hs. rewrite store_streams in Hs.
  destruct (Hwf _ _ Hs) as (c0 & Hc0 & Hid0 & Hcl0).
  destruct (decide (p = q)) as [->|Hpq].
  - exists c'. rewrite (store_lookup_eq q c' c s Hh).
    rewrite Hh in Hc0. injection Hc0 as ->. repeat split; congruence.
  - exists c0. rewrite store_lookup_ne by assumption. now repeat split.
Qed.

Lemma wf_evict s id p c : wf s → registered s id p c → wf (evict id p c s).
Proof.
  intros Hwf [Hs Hh] id' q Hs'. unfold evict in *. rewrite store_streams in Hs'.
  cbn [streams set_streams] in Hs'.
  apply lookup_delete_Some in Hs' as [Hne Hs'].
  destruct (Hwf _ _ Hs') as (c0 & Hc0 & Hid0 & Hcl0).
  exists c0. rewrite store_lookup_ne; [now repeat split|].
  intros <-. apply Hne. eapply wf_unique; eauto.
Qed.

Lemma wf_Join now req s r s' : wf s → Join now req s = Done r s' → wf s'.
Proof.
  intros Hwf. unfold Join. destruct (decide _); [now intros [= <- <-]|].
  destruct (streams s !! JoinRequest_ID req) eqn:Hs; intros [= <- <-]; [assumption|].
  intros id q Hq. cbn [streams heap] in *.
  apply lookup_insert_Some in Hq as [[<- <-]|[Hne Hq]].
  - eexists. rewrite lookup_app_r, Nat.sub_diag by lia. now repeat split.
  - destruct (Hwf _ _ Hq) as (c0 & Hc0 & Hid0 & Hcl0).
    exists c0. rewrite lookup_app_l by (eapply lookup_lt_Some, Hc0). now repeat split.
Qed.

Lemma wf_SendMessage now req s r s' : wf s → SendMessage now req s = Done r s' → wf s'.
Proof.
  intros Hwf. unfold SendMessage.
  destruct (decide _); [now intros [= <- <-]|].
  destruct (_ <? _)%nat; [now intros [= <- <-]|].
  destruct (streams s !! _) as [p|] eqn:Hs; [|now intros [= <- <-]].
  destruct (heap s !! p) as [c|] eqn:Hh; [|discriminate].
  destruct (Allow now (RateLimiter c)) as [ok lim].
  assert (Hwf1 : wf (store p (set_RateLimiter c lim) s))
    by (eapply wf_store; eauto).
  destruct ok; cbn [negb]; [|now intros [= <- <-]].
  destruct (_ =? _)%nat; intros [= <- <-]; now apply wf_set_goroutines.
Qed.

Lemma wf_deliver g s s' : wf s → deliver g s = Done tt s' → wf s'.
Proof.
  intros Hwf. unfold deliver, try_send.
  destruct (heap s !! g.1) as [c|] eqn:Hh; [|discriminate].
  destruct (ch_closed (Ch c)) eqn:Hc; [discriminate|].
  destruct (_ <? _)%nat; intros [= <-]; [|assumption].
  eapply wf_store; eauto.
Qed.

Lemma wf_run_goroutine i s s' : wf s → run_goroutine i s = Done tt s' → wf s'.
Proof.
  intros Hwf. unfold run_goroutine.
  destruct (goroutines s !! i); [|now intros [= <-]].
  apply wf_deliver. now apply wf_set_goroutines.
Qed.

Lemma wf_Leave req s r s' : wf s → Leave req s = Done r s' → wf s'.
Proof.
  intros Hwf. destruct (decide (LeaveRequest_ID req = "")) as [He|Hne].
  - unfold Leave. destruct (decide _); [now intros [= <- <-]|contradiction].
  - destruct (streams s !! LeaveRequest_ID req) as [p|] eqn:Hs.
    + destruct (Hwf _ _ Hs) as (c & Hh & Hid & Hcl).
      rewrite (Leave_registered req s p c) by (try split; assumption).
      intros [= <- <-]. apply wf_evict; [assumption|now split].
    + rewrite Leave_absent by assumption. now intros [= <- <-].
Qed.

Lemma wf_GetMessage now req s r s' : wf s → GetMessage now req s = Done r s' → wf s'.
Proof.
  intros Hwf. destruct (decide (MessageRequest_ID req = "")) as [He|Hne].
  - unfold GetMessage, GetMessage_lookup.
    destruct (decide _); [now intros [= <- <-]|contradiction].
  - destruct (streams s !! MessageRequest_ID req) as [p|] eqn:Hs.
    + destruct (Hwf _ _ Hs) as (c & Hh & Hid & Hcl).
      rewrite (GetMessage_registered now req s p c) by (try split; assumption).
      destruct (ch_buf (Ch c)); intros [= <- <-]; eapply wf_store; eauto.
    + rewrite GetMessage_absent by assumption. now intros [= <- <-].
Qed.

(** ** The cleanup loop *)

Lemma reap_stale now s id p c :
  registered s id p c → ch_closed (Ch c) = false → stale now c →
  reap now (Done tt s) (id, p) = Done tt (evict id p c s).
Proof.
  intros [Hs Hh] Hcl Hst. unfold reap. cbn [fst snd]. rewrite Hh.
  apply Z.ltb_lt in Hst. rewrite Hst.
  now rewrite (close_client_open p c s) by assumption.
Qed.

Lemma reap_fresh now s id p c :
  heap s !! p = Some c → ¬ stale now c →
  reap now (Done tt s) (id, p) = Done tt s.
Proof.
  intros Hh Hst. unfold reap. cbn [fst snd]. rewrite Hh.
  apply Z.ltb_nlt in Hst. now rewrite Hst.
Qed.

Lemma registered_evict_other s id0 p0 c0 id p c :
  wf s → registered s id0 p0 c0 → registered s id p c → id ≠ id0 →
  registered (evict id0 p0 c0 s) id p c.
Proof.
  intros Hwf [Hs0 Hh0] [Hs Hh] Hne. split.
  - unfold evict. rewrite store_streams. cbn [streams set_streams].
    now rewrite lookup_delete_ne.
  - unfold evict. rewrite store_lookup_ne; [exact Hh|].
    intros <-. apply Hne. eapply wf_unique; eauto.
Qed.

(** The loop over a list [l] of entries of the registry with distinct
    identifiers: it does not panic, it keeps the invariant, it removes and
    closes the stale clients of [l], and it leaves everything else alone. *)
Lemma reap_entries now (l : list (string * ptr)) :
  ∀ s, wf s → NoDup l.*1 →
    (∀ id p, (id, p) ∈ l → streams s !! id = Some p) →
    ∃ s', foldl (reap now) (Done tt s) l = Done tt s'
      ∧ wf s'
      ∧ goroutines s' = goroutines s
      ∧ (∀ id p c, registered s id p c → id ∉ l.*1 ∨ ¬ stale now c →
           registered s' id p c)
      ∧ (∀ id p c, registered s id p c → id ∈ l.*1 → stale now c →
           streams s' !! id = None
           ∧ heap s' !! p = Some (set_Ch c (closed_chan (Ch c))))
      ∧ (∀ id, streams s !! id = None → streams s' !! id = None)
      ∧ (∀ q, (∀ id, (id, q) ∉ l) → heap s' !! q = heap s !! q).
Proof.
  induction l as [|[id0 p0] l IH]; intros s Hwf Hnd Hin.
  { exists s. cbn [foldl].
    split; [reflexivity|]. split; [assumption|]. split; [reflexivity|].
    split; [intros id p c Hr _; exact Hr|].
    split; [intros id p c _ Hid; cbn in Hid; inversion Hid|].
    split; [intros id Hid; exact Hid|intros q _; reflexivity]. }
  cbn [fmap list_fmap fst] in Hnd. apply NoDup_cons in Hnd as [Hfresh Hnd].
  assert (Hs0 : streams s !! id0 = Some p0) by (apply Hin; left).
  destruct (Hwf _ _ Hs0) as (c0 & Hh0 & Hid0 & Hcl0).
  assert (Hr0 : registered s id0 p0 c0) by now split.
  assert (Hne0 : ∀ id p, (id, p) ∈ l → id ≠ id0).
  { intros id p Hl ->. apply Hfresh. apply list_elem_of_fmap. now exists (id0, p). }
  cbn [foldl]. destruct (Z_lt_dec (5 * time.Minute) (now - LastSeen c0)) as [Hst|Hst];
    fold (stale now c0) in Hst.
  - (* the entry is stale: it is closed and deleted *)
    rewrite (reap_stale now s id0 p0 c0) by assumption.
    set (s1 := evict id0 p0 c0 s).
    assert (Hwf1 : wf s1) by now apply wf_evict.
    assert (Hin1 : ∀ id p, (id, p) ∈ l → streams s1 !! id = Some p).
    { intros id p Hl. pose proof (Hne0 id p Hl) as Hne.
      unfold s1, evict. rewrite store_streams.
      cbn [streams set_streams]. rewrite lookup_delete_ne by congruence.
      apply Hin. now right. }
    assert (Hnone1 : streams s1 !! id0 = None).
    { unfold s1, evict. rewrite store_streams. cbn [streams set_streams].
      apply lookup_delete_eq. }
    assert (Hp0 : ∀ id, (id, p0) ∉ l).
    { intros id Hl. destruct (Hwf1 _ _ (Hin1 _ _ Hl)) as (c1 & Hh1 & _ & Hcl1).
      unfold s1, evict in Hh1. rewrite (store_lookup_eq p0 _ c0) in Hh1 by exact Hh0.
      injection Hh1 as <-. discriminate. }
    destruct (IH s1 Hwf1 Hnd Hin1) as (s' & Hrun & Hwf' & Hg & Hkeep & Hgone & Hnone & Hframe).
    exists s'. split; [exact Hrun|]. split; [exact Hwf'|]. split; [exact Hg|].
    split; [|split; [|split]].
    + intros id p c Hr Hor.
      assert (Hne : id ≠ id0).
      { intros ->. destruct Hr as [Hs Hh]. rewrite Hs0 in Hs. injection Hs as <-.
        rewrite Hh0 in Hh. injection Hh as <-.
        destruct Hor as [Hnot|Hnot]; [|contradiction].
        apply Hnot. cbn. left. }
      apply Hkeep; [now apply registered_evict_other|].
      destruct Hor as [Hnot|Hnot]; [left|now right].
      intros Hl. apply Hnot. cbn. now right.
    + intros id p c Hr Hl Hstc. destruct (decide (id = id0)) as [->|Hne].
      * destruct Hr as [Hs Hh]. rewrite Hs0 in Hs. injection Hs as <-.
        rewrite Hh0 in Hh. injection Hh as <-. split; [now apply Hnone|].
        rewrite Hframe by exact Hp0. unfold s1, evict.
        now apply (store_lookup_eq p0 _ c0).
      * apply Hgone; [now apply registered_evict_other| |assumption].
        cbn in Hl. apply elem_of_cons in Hl as [?|?]; [contradiction|assumption].
    + intros id Hs. apply Hnone. unfold s1, evict. rewrite store_streams.
      cbn [streams set_streams]. apply lookup_delete_None. now right.
    + intros q Hq. rewrite Hframe by (intros id Hl; apply (Hq id); now right).
      unfold s1, evict. rewrite store_lookup_ne; [reflexivity|].
      intros <-. apply (Hq id0). left.
  - (* the entry is not stale: nothing happens *)
    rewrite (reap_fresh now s id0 p0 c0) by assumption.
    assert (Hin1 : ∀ id p, (id, p) ∈ l → streams s !! id = Some p)
      by (intros id p Hl; apply Hin; now right).
    destruct (IH s Hwf Hnd Hin1) as (s' & Hrun & Hwf' & Hg & Hkeep & Hgone & Hnone & Hframe).
    exists s'. split; [exact Hrun|]. split; [exact Hwf'|]. split; [exact Hg|].
    split; [|split; [|split]].
    + intros id p c Hr Hor. apply Hkeep; [assumption|].
      destruct Hor as [Hnot|Hnot]; [left|now right].
      intros Hl. apply Hnot. cbn. now right.
    + intros id p c Hr Hl Hstc. apply Hgone; [assumption| |assumption].
      cbn in Hl. apply elem_of_cons in Hl as [->|?]; [|assumption].
      destruct Hr as [Hs Hh]. rewrite Hs0 in Hs. injection Hs as <-.
      rewrite Hh0 in Hh. injection Hh as <-. contradiction.
    + exact Hnone.
    + intros q Hq. apply Hframe. intros id Hl. apply (Hq id). now right.
Qed.

(** One tick of the cleanup loop. *)
Lemma cleanup_spec now s :
  wf s →
  ∃ s', cleanup now s = Done tt s'
    ∧ wf s'
    ∧ goroutines s' = goroutines s
    ∧ (∀ id p c, registered s id p c → ¬ stale now c → registered s' id p c)
    ∧ (∀ id p c, registered s id p c → stale now c →
         streams s' !! id = None
         ∧ heap s' !! p = Some (set_Ch c (closed_chan (Ch c))))
    ∧ (∀ id, streams s !! id = None → streams s' !! id = None).
Proof.
  intros Hwf.
  destruct (reap_entries now (map_to_list (streams s)) s Hwf)
    as (s' & Hrun & Hwf' & Hg & Hkeep & Hgone & Hnone & _).
  - apply NoDup_fst_map_to_list.
  - intros id p. apply elem_of_map_to_list.
  - exists s'. split; [exact Hrun|]. split; [exact Hwf'|]. split; [exact Hg|].
    split; [|split].
    + intros id p c Hr Hst. apply (Hkeep id p c Hr). now right.
    + intros id p c Hr Hst. apply (Hgone id p c Hr); [|exact Hst].
      apply list_elem_of_fmap. exists (id, p). split; [reflexivity|].
      apply elem_of_map_to_list. apply Hr.
    + exact Hnone.
Qed.

Lemma wf_step e s s' : wf s → step e s = Done tt s' → wf s'.
Proof.
  intros Hwf. destruct e as [now req|now req|req|now req|i|now|q0 b0]; cbn [step].
  - destruct (Join now req s) eqn:E; [|discriminate].
    intros [= <-]. eapply wf_Join; eauto.
  - destruct (SendMessage now req s) eqn:E; [|discriminate].
    intros [= <-]. eapply wf_SendMessage; eauto.
  - destruct (Leave req s) eqn:E; [|discriminate].
    intros [= <-]. eapply wf_Leave; eauto.
  - destruct (GetMessage now req s) eqn:E; [|discriminate].
    intros [= <-]. eapply wf_GetMessage; eauto.
  - now apply wf_run_goroutine.
  - destruct (cleanup_spec now s Hwf) as (s1 & -> & Hwf1 & _). now intros [= <-].
  - intros [= <-]. unfold rounding. destruct (heap s !! q0) eqn:E; [|assumption].
    now apply (wf_store s q0 c).
Qed.

Lemma wf_run es : ∀ s s', wf s → run es s = Done tt s' → wf s'.
Proof.
  induction es as [|e es IH]; intros s s' Hwf; cbn [run].
  - now intros [= <-].
  - destruct (step e s) as [[] s1|] eqn:E; [|discriminate].
    apply IH. eapply wf_step; eauto.
Qed.

Lemma wf_reachable s : reachable s → wf s.
Proof. intros [es Hes]. eapply wf_run; [apply wf_NewChatService|exact Hes]. Qed.

Lemma run_state_reachable es v :
  run es NewChatService = Done tt v → reachable (run_state es).
Proof. intros H. exists es. unfold run_state. now rewrite H. Qed.

(** ** Delivery to a closed channel *)

Lemma deliver_closed s p c m :
  heap s !! p = Some c → ch_closed (Ch c) = true →
  deliver (p, m) s = Panic SendOnClosedChannel.
Proof.
  intros Hh Hc. unfold deliver. cbn [fst snd]. rewrite Hh.
  now rewrite try_send_closed.
Qed.

(** C5: what the code does when a goroutine of the fan-out runs after its
    client was removed.  The non-blocking send on the closed channel does not
    drop the message: it panics.  So does the run in which [a] broadcasts,
    [b] leaves, and the goroutine for [b] is scheduled afterwards, and the
    run in which the cleanup loop evicts [b] in between. *)
Theorem C5_delivery_after_removal_panics :
  (∀ s p c m, heap s !! p = Some c → ch_closed (Ch c) = true →
     deliver (p, m) s = Panic SendOnClosedChannel)
  ∧ run [EJoin 0 req_a; EJoin 0 req_b; ESendMessage 1 hi_from_a;
         ELeave (mkLeaveRequest "b"); EGo 0] NewChatService
    = Panic SendOnClosedChannel
  ∧ run [EJoin 0 req_a; EJoin 0 req_b; ESendMessage (301 * time.Second) hi_from_a;
         ETick (301 * time.Second); EGo 0] NewChatService
    = Panic SendOnClosedChannel.
Proof.
  split; [exact deliver_closed|]. split; vm_compute; reflexivity.
Qed.


(** ** Staying registered over a run *)

Section Alive.
Variables (id : string) (p : ptr).
Hypothesis Hid : id ≠ "".

Lemma alive_store s seen q c0 c' :
  alive s id p seen → heap s !! q = Some c0 → LastSeen c' = LastSeen c0 →
  alive (store q c' s) id p seen.
Proof using Type.
  intros (c & [Hs Hh] & Hseen) Hq Hl. destruct (decide (q = p)) as [->|Hne].
  - exists c'. split; [split|].
    + exact Hs.
    + eapply store_lookup_eq, Hq.
    + congruence.
  - exists c. split; [split|]; [exact Hs| |exact Hseen].
    now rewrite store_lookup_ne.
Qed.

Lemma alive_Join s seen now req r s' :
  alive s id p seen → Join now req s = Done r s' → alive s' id p seen.
Proof using Type.
  intros (c & [Hs Hh] & Hseen). unfold Join.
  destruct (decide _); [intros [= <- <-]; now exists c|].
  destruct (streams s !! JoinRequest_ID req) eqn:Hj; intros [= <- <-]; [now exists c|].
  exists c. split; [split|exact Hseen]; cbn [streams heap].
  - rewrite lookup_insert_ne; [exact Hs|]. congruence.
  - rewrite lookup_app_l; [exact Hh|]. eapply lookup_lt_Some, Hh.
Qed.

Lemma alive_SendMessage s seen now req r s' :
  alive s id p seen → SendMessage now req s = Done r s' → alive s' id p seen.
Proof using Type.
  intros Ha. unfold SendMessage.
  destruct (decide _); [now intros [= <- <-]|].
  destruct (_ <? _)%nat; [now intros [= <- <-]|].
  destruct (streams s !! _) as [q|] eqn:Hs; [|now intros [= <- <-]].
  destruct (heap s !! q) as [c|] eqn:Hh; [|discriminate].
  destruct (Allow now (RateLimiter c)) as [ok lim].
  assert (Ha1 : alive (store q (set_RateLimiter c lim) s) id p seen)
    by (eapply alive_store; eauto).
  destruct ok; cbn [negb]; [|now intros [= <- <-]].
  destruct (_ =? _)%nat; intros [= <- <-]; exact Ha1.
Qed.

Lemma alive_run_goroutine s seen i s' :
  alive s id p seen → run_goroutine i s = Done tt s' → alive s' id p seen.
Proof using Type.
  intros Ha. unfold run_goroutine.
  destruct (goroutines s !! i) as [g|]; [|now intros [= <-]].
  unfold deliver. cbn [heap set_goroutines].
  destruct (heap s !! g.1) as [c|] eqn:Hh; [|discriminate].
  destruct (try_send g.2 (Ch c)); intros [= <-]; [|exact Ha].
  apply (alive_store (set_goroutines s _) seen g.1 c); [exact Ha|exact Hh|reflexivity].
Qed.

Lemma alive_Leave s seen req r s' :
  wf s → alive s id p seen → LeaveRequest_ID req ≠ id →
  Leave req s = Done r s' → alive s' id p seen.
Proof using Type.
  intros Hwf (c & Hr & Hseen) Hne.
  destruct (decide (LeaveRequest_ID req = "")) as [He|Hne'].
  - unfold Leave. destruct (decide _); [|contradiction].
    intros [= <- <-]. now exists c.
  - destruct (streams s !! LeaveRequest_ID req) as [q|] eqn:Hs.
    + destruct (Hwf _ _ Hs) as (c0 & Hh & Hid0 & Hcl).
      rewrite (Leave_registered req s q c0) by (try split; assumption).
      intros [= <- <-]. exists c. split; [|exact Hseen].
      apply registered_evict_other; [assumption|now split|assumption|congruence].
    + rewrite Leave_absent by assumption. intros [= <- <-]. now exists c.
Qed.

Lemma alive_GetMessage s seen now req r s' :
  wf s → alive s id p seen → GetMessage now req s = Done r s' →
  alive s' id p (if decide (MessageRequest_ID req = id) then now else seen).
Proof using Hid.
  intros Hwf (c & Hr & Hseen). destruct (decide (MessageRequest_ID req = id)) as [He|Hne].
  - rewrite (GetMessage_registered now req s p c) by (rewrite He; assumption).
    destruct (ch_buf (Ch c)); intros [= <- <-]; eexists;
      (split; [split; [apply Hr|eapply store_lookup_eq, Hr]|reflexivity]).
  - destruct (decide (MessageRequest_ID req = "")) as [He|Hne'].
    { unfold GetMessage, GetMessage_lookup. destruct (decide _); [|contradiction].
      intros [= <- <-]. now exists c. }
    destruct (streams s !! MessageRequest_ID req) as [q|] eqn:Hs.
    + destruct (Hwf _ _ Hs) as (c0 & Hh & Hid0 & Hcl).
      rewrite (GetMessage_registered now req s q c0) by (try split; assumption).
      assert (Hpq : q ≠ p).
      { intros ->. apply Hne. eapply wf_unique; eauto. apply Hr. }
      destruct (ch_buf (Ch c0)); intros [= <- <-]; exists c;
        (split; [split; [apply Hr|rewrite store_lookup_ne by assumption; apply Hr]
                |exact Hseen]).
    + rewrite GetMessage_absent by assumption. intros [= <- <-]. now exists c.
Qed.

Lemma alive_cleanup s seen now s' :
  wf s → alive s id p seen → now - seen ≤ 5 * time.Minute →
  cleanup now s = Done tt s' → alive s' id p seen.
Proof using Type.
  intros Hwf (c & Hr & Hseen) Hle.
  destruct (cleanup_spec now s Hwf) as (s1 & -> & _ & _ & Hkeep & _).
  intros [= <-]. exists c. split; [|exact Hseen].
  apply (Hkeep id p c Hr). unfold stale. lia.
Qed.

(** Over a run in which the client polls in time it stays registered. *)
Lemma alive_rounding s seen q b : alive s id p seen → alive (rounding q b s) id p seen.
Proof using Type.
  intros Ha. unfold rounding. destruct (heap s !! q) as [c0|] eqn:E; [|assumption].
  now apply (alive_store s seen q c0).
Qed.

Lemma alive_run es :
  ∀ s seen s', wf s → alive s id p seen → polls_in_time id seen es →
    run es s = Done tt s' → ∃ seen', alive s' id p seen'.
Proof using Hid.
  induction es as [|e es IH]; intros s seen s' Hwf Ha Hp; cbn [run].
  - intros [= <-]. now exists seen.
  - destruct (step e s) as [[] s1|] eqn:E; [|discriminate].
    pose proof (wf_step e s s1 Hwf E) as Hwf1.
    destruct e as [now req|now req|req|now req|i|now|q0 b0]; cbn [step polls_in_time] in E, Hp.
    + destruct (Join now req s) eqn:EJ; [|discriminate]. injection E as <-.
      eapply IH; eauto using alive_Join.
    + destruct (SendMessage now req s) eqn:ES; [|discriminate]. injection E as <-.
      eapply IH; eauto using alive_SendMessage.
    + destruct (Leave req s) eqn:EL; [|discriminate]. injection E as <-.
      destruct Hp as [Hne Hp]. eapply IH; eauto using alive_Leave.
    + destruct (GetMessage now req s) eqn:EG; [|discriminate]. injection E as <-.
      pose proof (alive_GetMessage s seen now req _ _ Hwf Ha EG) as Ha1.
      destruct (decide (MessageRequest_ID req = id)); eapply IH; eauto.
    + eapply IH; eauto using alive_run_goroutine.
    + destruct Hp as [Hle Hp]. eapply IH; eauto using alive_cleanup.
    + injection E as <-. eapply IH; eauto using alive_rounding.
Qed.
End Alive.

(** The first tick after a client has become stale comes at most six
    minutes after it was last seen. *)
Lemma next_tick start seen :
  start ≤ seen →
  ∃ k, 1 ≤ k ∧ 5 * time.Minute < tick start k - seen ≤ 6 * time.Minute.
Proof.
  intros Hle. exists ((seen + 5 * time.Minute - start) / time.Minute + 1).
  unfold tick.
  assert (HM : 0 < time.Minute) by time_lia.
  pose proof (Z.div_mod (seen + 5 * time.Minute - start) time.Minute ltac:(lia)) as Hdm.
  pose proof (Z.mod_pos_bound (seen + 5 * time.Minute - start) time.Minute HM) as Hb.
  assert (0 ≤ (seen + 5 * time.Minute - start) / time.Minute)
    by (apply Z.div_pos; lia).
  nia.
Qed.

Lemma SendMessage_sender_absent now req s :
  valid_from (SendMessageRequest_From req) req →
  streams s !! SendMessageRequest_From req = None →
  SendMessage now req s = Done (Fail ErrSenderNotFound) s.
Proof.
  intros (_ & Hf & Ht & Hl) Hs. rewrite SendMessage_validated by assumption.
  now rewrite Hs.
Qed.

(** ** Mailboxes stay within their capacity, limiters within their burst *)

Lemma limiter_ok_New : limiter_ok (NewLimiter 1 5).
Proof. unfold limiter_ok, NewLimiter, time.Second, time.Nanosecond. cbn. lia. Qed.

Lemma limiter_ok_Allow now lim : limiter_ok lim → limiter_ok (Allow now lim).2.
Proof.
  intros (Hl & Hb & Ht). unfold Allow, advance. cbn [snd].
  destruct (_ || _) eqn:E; [|now repeat split].
  apply orb_true_iff in E as [E|E].
  - apply Z.leb_le in E. unfold limiter_ok. cbn. rewrite Hb in *. lia.
  - apply andb_true_iff in E as [_ E]. apply Z.eqb_eq in E.
    unfold limiter_ok. cbn. rewrite Hb in *. lia.
Qed.

Lemma limiter_ok_early lim b : limiter_ok lim → limiter_ok (set_early lim b).
Proof. intros H. exact H. Qed.

Lemma bounded_store s p c :
  bounded s → client_ok c → bounded (store p c s).
Proof.
  intros Hb Hc q c' Hq. destruct (decide (p = q)) as [E|Hne].
  - subst q. destruct (heap s !! p) as [c0|] eqn:Hh.
    + rewrite (store_lookup_eq p c c0 s Hh) in Hq. now injection Hq as <-.
    + unfold store in Hq. cbn [heap set_heap] in Hq.
      rewrite list_insert_ge in Hq by (now apply lookup_ge_None). congruence.
  - rewrite store_lookup_ne in Hq by assumption. eauto.
Qed.

Lemma bounded_Join now req s r s' : bounded s → Join now req s = Done r s' → bounded s'.
Proof.
  intros Hb. unfold Join. destruct (decide _); [now intros [= <- <-]|].
  destruct (streams s !! _); intros [= <- <-]; [assumption|].
  intros q c Hq. cbn [heap] in Hq. apply lookup_app_Some in Hq as [Hq|[_ Hq]]; [eauto|].
  apply list_lookup_singleton_Some in Hq as [_ <-].
  split; [split; cbn; [reflexivity|lia]|apply limiter_ok_New].
Qed.

Lemma bounded_SendMessage now req s r s' :
  bounded s → SendMessage now req s = Done r s' → bounded s'.
Proof.
  intros Hb. unfold SendMessage.
  destruct (decide _); [now intros [= <- <-]|].
  destruct (_ <? _)%nat; [now intros [= <- <-]|].
  destruct (streams s !! _) as [q|]; [|now intros [= <- <-]].
  destruct (heap s !! q) as [c|] eqn:Hh; [|discriminate].
  pose proof (limiter_ok_Allow now (RateLimiter c) (proj2 (Hb q c Hh))) as HA.
  destruct (Allow now (RateLimiter c)) as [ok lim].
  assert (Hb1 : bounded (store q (set_RateLimiter c lim) s))
    by (apply bounded_store; [assumption|split; [apply (Hb q c Hh)|exact HA]]).
  destruct ok; cbn [negb]; [|now intros [= <- <-]].
  destruct (_ =? _)%nat; intros [= <- <-]; exact Hb1.
Qed.

Lemma deliver_open s p c m :
  heap s !! p = Some c → ch_closed (Ch c) = false →
  deliver (p, m) s = Done tt (store p (offer m c) s).
Proof.
  intros Hh Hc. unfold deliver, offer. cbn [fst snd]. rewrite Hh, try_send_open by assumption.
  rewrite Hc. destruct (_ <? _)%nat; [reflexivity|]. now rewrite store_same.
Qed.

Lemma client_ok_offer m c : client_ok c → client_ok (offer m c).
Proof.
  intros [[Hcap Hlen] Hlim]. unfold offer. destruct (_ <? _)%nat eqn:E; [|now split].
  apply Nat.ltb_lt in E. split; [split|exact Hlim]; cbn; [assumption|].
  rewrite length_app. cbn. lia.
Qed.

Lemma bounded_run_goroutine i s s' :
  bounded s → run_goroutine i s = Done tt s' → bounded s'.
Proof.
  intros Hb. unfold run_goroutine.
  destruct (goroutines s !! i) as [[q m]|]; [|now intros [= <-]].
  destruct (heap s !! q) as [c|] eqn:Hh.
  - destruct (ch_closed (Ch c)) eqn:Hc.
    + rewrite (deliver_closed _ q c m) by assumption. discriminate.
    + rewrite (deliver_open _ q c m) by assumption. intros [= <-].
      apply (bounded_store (set_goroutines s _)); [exact Hb|].
      apply client_ok_offer, (Hb q c Hh).
  - unfold deliver. cbn [fst heap set_goroutines]. rewrite Hh. discriminate.
Qed.

Lemma bounded_close_client p s s' :
  bounded s → close_client p s = Done tt s' → bounded s'.
Proof.
  intros Hb. unfold close_client, close_chan.
  destruct (heap s !! p) as [c|] eqn:Hh; [|discriminate].
  destruct (ch_closed (Ch c)); [discriminate|]. intros [= <-].
  apply bounded_store; [assumption|]. apply (Hb p c Hh).
Qed.

Lemma bounded_Leave req s r s' : bounded s → Leave req s = Done r s' → bounded s'.
Proof.
  intros Hb. unfold Leave. destruct (decide _); [now intros [= <- <-]|].
  destruct (streams s !! _) as [q|]; [|now intros [= <- <-]].
  destruct (close_client q _) as [[] s1|] eqn:E; [|discriminate].
  intros [= <- <-]. eapply bounded_close_client; [|exact E]. exact Hb.
Qed.

Lemma bounded_GetMessage now req s r s' :
  bounded s → GetMessage now req s = Done r s' → bounded s'.
Proof.
  intros Hb. unfold GetMessage, GetMessage_lookup.
  destruct (decide _); [now intros [= <- <-]|].
  destruct (streams s !! _) as [q|]; [|now intros [= <- <-]].
  destruct (heap s !! q) as [c|] eqn:Hh; [|discriminate].
  assert (Hb1 : bounded (store q (set_LastSeen c now) s))
    by (apply bounded_store; [assumption|apply (Hb q c Hh)]).
  unfold GetMessage_select, try_recv.
  rewrite (store_lookup_eq q _ c s Hh). cbn [Ch set_LastSeen andb].
  destruct (Hb q c Hh) as [[Hcap Hlen] Hlim].
  destruct (ch_buf (Ch c)) as [|m rest] eqn:Hbuf.
  - destruct (ch_closed (Ch c)); cbn; now intros [= <- <-].
  - cbn. intros [= <- <-]. apply bounded_store; [assumption|].
    split; [split|exact Hlim]; cbn; [assumption|]. cbn in Hlen. lia.
Qed.

Lemma bounded_cleanup now (l : list (string * ptr)) :
  ∀ s s', bounded s → foldl (reap now) (Done tt s) l = Done tt s' → bounded s'.
Proof.
  induction l as [|e l IH]; intros s s' Hb; cbn [foldl].
  - now intros [= <-].
  - destruct (reap now (Done tt s) e) as [[] s1|] eqn:E.
    + apply IH. unfold reap in E.
      destruct (heap s !! e.2) as [c|]; [|discriminate].
      destruct (_ <? _); [|now injection E as <-].
      destruct (close_client e.2 s) as [[] s2|] eqn:E2; [|discriminate].
      injection E as <-. eapply bounded_close_client in E2; eauto.
    + assert (Hp : ∀ v, foldl (reap now) (Panic v) l = Panic v)
        by (intros v'; clear; induction l; [reflexivity|assumption]).
      rewrite Hp. discriminate.
Qed.

Lemma bounded_step e s s' : bounded s → step e s = Done tt s' → bounded s'.
Proof.
  intros Hb. destruct e as [now req|now req|req|now req|i|now|q0 b0]; cbn [step].
  - destruct (Join now req s) eqn:E; [|discriminate].
    intros [= <-]. eapply bounded_Join; eauto.
  - destruct (SendMessage now req s) eqn:E; [|discriminate].
    intros [= <-]. eapply bounded_SendMessage; eauto.
  - destruct (Leave req s) eqn:E; [|discriminate].
    intros [= <-]. eapply bounded_Leave; eauto.
  - destruct (GetMessage now req s) eqn:E; [|discriminate].
    intros [= <-]. eapply bounded_GetMessage; eauto.
  - now apply bounded_run_goroutine.
  - now apply bounded_cleanup.
  - intros [= <-]. unfold rounding. destruct (heap s !! q0) as [c|] eqn:E; [|assumption].
    apply bounded_store; [assumption|]. destruct (Hb q0 c E) as [Hch Hlim].
    split; [exact Hch|now apply limiter_ok_early].
Qed.

Lemma bounded_run es : ∀ s s', bounded s → run es s = Done tt s' → bounded s'.
Proof.
  induction es as [|e es IH]; intros s s' Hb; cbn [run].
  - now intros [= <-].
  - destruct (step e s) as [[] s1|] eqn:E; [|discriminate].
    apply IH. eapply bounded_step; eauto.
Qed.

Lemma bounded_reachable s : reachable s → bounded s.
Proof.
  intros [es Hes]. eapply bounded_run; [|exact Hes].
  intros p c H. cbn in H. now rewrite lookup_nil in H.
Qed.

(** ** Running the goroutines of a fan-out *)

Lemma fanout_NoDup from m s : wf s → NoDup (fanout from m s).*1.
Proof.
  intros Hwf. unfold fanout. rewrite <- list_fmap_compose.
  apply NoDup_fmap_2_strong.
  - intros [id1 q1] [id2 q2] H1 H2 Heq. cbn in Heq. subst q2.
    apply list_elem_of_filter in H1 as [_ H1]. apply list_elem_of_filter in H2 as [_ H2].
    apply elem_of_map_to_list in H1, H2. f_equal. eapply wf_unique; eauto.
  - apply NoDup_filter, NoDup_map_to_list.
Qed.

Lemma fanout_targets from m s q :
  q ∈ (fanout from m s).*1 ↔ ∃ id, id ≠ from ∧ streams s !! id = Some q.
Proof.
  rewrite list_elem_of_fmap. split.
  - intros ([q' m'] & -> & Hin). apply elem_of_fanout in Hin as (_ & H). exact H.
  - intros H. exists (q, m). split; [reflexivity|]. apply elem_of_fanout. now split.
Qed.

(** The goroutines [gs] at the end of the pool, for distinct clients with
    open channels, all run: each client is offered its message once, and
    nothing else changes. *)
Lemma run_goroutines_spec (gs : list (ptr * string)) :
  ∀ old s,
    goroutines s = old ++ gs → NoDup gs.*1 →
    (∀ q m, (q, m) ∈ gs → ∃ c, heap s !! q = Some c ∧ ch_closed (Ch c) = false) →
    ∃ s', run_goroutines (length old) (length gs) s = Done tt s'
      ∧ streams s' = streams s
      ∧ goroutines s' = old
      ∧ (∀ q m c, (q, m) ∈ gs → heap s !! q = Some c → heap s' !! q = Some (offer m c))
      ∧ (∀ q, q ∉ gs.*1 → heap s' !! q = heap s !! q).
Proof.
  induction gs as [|[q0 m0] gs IH]; intros old s Hg Hnd Hopen.
  { exists s. cbn [run_goroutines length]. rewrite app_nil_r in Hg.
    split; [reflexivity|]. split; [reflexivity|]. split; [exact Hg|].
    split; [|reflexivity]. intros q m c Hin. inversion Hin. }
  cbn [fmap list_fmap fst] in Hnd. apply NoDup_cons in Hnd as [Hfresh Hnd].
  destruct (Hopen q0 m0) as (c0 & Hh0 & Hc0); [left|].
  cbn [run_goroutines length]. unfold run_goroutine.
  rewrite Hg, list_lookup_middle, delete_middle by reflexivity.
  rewrite (deliver_open _ q0 c0 m0) by assumption.
  set (s1 := store q0 (offer m0 c0) (set_goroutines s (old ++ gs))).
  assert (Hother : ∀ q, q ∈ gs.*1 → heap s1 !! q = heap s !! q).
  { intros q Hq. unfold s1. rewrite store_lookup_ne; [reflexivity|]. now intros <-. }
  destruct (IH old s1) as (s' & Hrun & Hs & Hg' & Hoff & Hframe).
  - reflexivity.
  - exact Hnd.
  - intros q m Hin. rewrite Hother; [apply (Hopen q m); now right|].
    apply list_elem_of_fmap. now exists (q, m).
  - exists s'. split; [exact Hrun|]. split; [exact Hs|]. split; [exact Hg'|]. split.
    + intros q m c Hin Hh. apply elem_of_cons in Hin as [[= -> ->]|Hin].
      * rewrite Hframe by exact Hfresh. rewrite Hh0 in Hh. injection Hh as <-.
        unfold s1. eapply store_lookup_eq. exact Hh0.
      * apply Hoff; [exact Hin|]. rewrite Hother; [exact Hh|].
        apply list_elem_of_fmap. now exists (q, m).
    + intros q Hq. rewrite Hframe.
      * unfold s1. rewrite store_lookup_ne; [reflexivity|].
        intros <-. apply Hq. cbn. left.
      * intros Hin. apply Hq. cbn. now right.
Qed.

(** A call of [SendMessage] that succeeds was valid, came from a registered
    sender that the limiter allowed, and started the goroutines of the
    fan-out, of which there is at least one. *)
Lemma SendMessage_success now req s r s1 :
  SendMessage now req s = Done (Ok r) s1 →
  let from := SendMessageRequest_From req in
  let message := from +:+ ": " +:+ SendMessageRequest_Message req in
  valid_from from req
  ∧ ∃ p sender,
      registered s from p sender
      ∧ (Allow now (RateLimiter sender)).1 = true
      ∧ fanout from message s ≠ []
      ∧ s1 = set_goroutines
               (store p (set_RateLimiter sender (Allow now (RateLimiter sender)).2) s)
               (goroutines s ++ fanout from message s).
Proof.
  intros H from message.
  assert (Hv : valid_from from req).
  { destruct (decide (from = "" ∨ SendMessageRequest_Message req = "")) as [Hm|Hn].
    { rewrite SendMessage_missing_field in H by exact Hm. discriminate. }
    assert (Hf : from ≠ "") by tauto.
    assert (Ht : SendMessageRequest_Message req ≠ "") by tauto.
    destruct (le_lt_dec (String.length (SendMessageRequest_Message req)) 500) as [Hl|Hl].
    - now repeat split.
    - rewrite SendMessage_too_long in H by assumption. discriminate. }
  split; [exact Hv|].
  destruct (streams s !! from) as [p|] eqn:Hs;
    [|rewrite SendMessage_sender_absent in H by assumption; discriminate].
  destruct (heap s !! p) as [c|] eqn:Hh.
  - assert (Hr : registered s from p c) by now split.
    exists p, c. split; [exact Hr|].
    destruct ((Allow now (RateLimiter c)).1) eqn:HA.
    + pose proof (SendMessage_allowed now req s from p c Hv Hr HA) as E.
      cbv zeta in E. fold message in E. rewrite E in H.
      destruct (decide (fanout from message s = [])); [discriminate|].
      split; [reflexivity|]. split; [assumption|]. congruence.
    + rewrite (SendMessage_refused now req s from p c Hv Hr HA) in H. discriminate.
  - destruct Hv as (_ & Hf & Ht & Hl).
    rewrite SendMessage_validated in H by assumption. fold from in H.
    rewrite Hs, Hh in H. discriminate.
Qed.

(** ** Registered identifiers are not empty *)

Lemma SendMessage_streams now req s r s' :
  SendMessage now req s = Done r s' → streams s' = streams s.
Proof.
  unfold SendMessage.
  destruct (decide _); [now intros [= <- <-]|].
  destruct (_ <? _)%nat; [now intros [= <- <-]|].
  destruct (streams s !! _) as [q|]; [|now intros [= <- <-]].
  destruct (heap s !! q) as [c|]; [|discriminate].
  destruct (Allow now (RateLimiter c)) as [[|] lim]; cbn [negb]; [|now intros [= <- <-]].
  destruct (_ =? _)%nat; now intros [= <- <-].
Qed.

Lemma GetMessage_streams now req s r s' :
  GetMessage now req s = Done r s' → streams s' = streams s.
Proof.
  unfold GetMessage, GetMessage_lookup.
  destruct (decide _); [now intros [= <- <-]|].
  destruct (streams s !! _) as [q|]; [|now intros [= <- <-]].
  destruct (heap s !! q) as [c|] eqn:Hh; [|discriminate].
  unfold GetMessage_select, try_recv.
  rewrite (store_lookup_eq q _ c s Hh). cbn [Ch set_LastSeen andb].
  destruct (ch_buf (Ch c)); [destruct (ch_closed (Ch c))|]; cbn; now intros [= <- <-].
Qed.

Lemma run_goroutine_streams i s s' :
  run_goroutine i s = Done tt s' → streams s' = streams s.
Proof.
  unfold run_goroutine, deliver.
  destruct (goroutines s !! i) as [g|]; [|now intros [= <-]].
  cbn [heap set_goroutines]. destruct (heap s !! g.1); [|discriminate].
  destruct (try_send _ _); now intros [= <-].
Qed.

Lemma named_step e s s' : wf s → named s → step e s = Done tt s' → named s'.
Proof.
  intros Hwf Hn. destruct e as [now req|now req|req|now req|i|now|q0 b0]; cbn [step].
  - unfold Join. destruct (decide _) as [|Hne]; [now intros [= <-]|].
    destruct (streams s !! _); intros [= <-]; [assumption|].
    intros id p Hs. cbn [streams] in Hs.
    apply lookup_insert_Some in Hs as [[<- _]|[_ Hs]]; eauto.
  - destruct (SendMessage now req s) eqn:E; [|discriminate]. intros [= <-].
    intros id p Hs. erewrite SendMessage_streams in Hs by eauto. eauto.
  - unfold Leave. destruct (decide _); [now intros [= <-]|].
    destruct (streams s !! _) as [q|]; [|now intros [= <-]].
    unfold close_client. cbn [heap set_streams].
    destruct (heap s !! q) as [c|]; [|discriminate].
    destruct (close_chan _); [|discriminate]. intros [= <-].
    intros id p Hs. rewrite store_streams in Hs. cbn [streams set_streams] in Hs.
    apply lookup_delete_Some in Hs as [_ Hs]. eauto.
  - destruct (GetMessage now req s) eqn:E; [|discriminate]. intros [= <-].
    intros id p Hs. erewrite GetMessage_streams in Hs by eauto. eauto.
  - intros E id p Hs. erewrite run_goroutine_streams in Hs by eauto. eauto.
  - destruct (cleanup_spec now s Hwf) as (s1 & -> & _ & _ & _ & _ & Hnone).
    intros [= <-] id p Hs. destruct (streams s !! id) as [q|] eqn:Hq; [eauto|].
    rewrite (Hnone id Hq) in Hs. discriminate.
  - intros [= <-] id p Hs. rewrite rounding_streams in Hs. eauto.
Qed.

Lemma named_reachable s : reachable s → named s.
Proof.
  intros [es Hes].
  assert (H : ∀ es s0 s1, wf s0 → named s0 → run es s0 = Done tt s1 → named s1).
  { clear. induction es as [|e es IH]; intros s0 s1 Hwf Hn; cbn [run].
    - now intros [= <-].
    - destruct (step e s0) as [[] s2|] eqn:E; [|discriminate].
      apply IH; [eapply wf_step; eauto|eapply named_step; eauto]. }
  apply (H es NewChatService s); [apply wf_NewChatService| |exact Hes].
  intros id p Hs. cbn in Hs. now rewrite lookup_empty in Hs.
Qed.

(** ** The outcomes of [GetMessage] *)

(** C3: the outcomes of [GetMessage] for a registered client.  The call,
    holding the client, first refreshes [LastSeen]; then
    (a) a buffered message is returned at once, also from a channel that
        was closed in the meantime;
    (b) on an empty closed channel the [select] fails with
        [ERR_USER_DISCONNECTED], and so does a call that was blocked on the
        empty channel when [Leave] closed it;
    (c) on an empty open channel the [select] stays blocked until the ten
        seconds have passed and then fails with [ERR_NO_MESSAGES];
    and once the timer has fired the [select] returns whatever the state,
    with one of these three replies. *)
Theorem C3_GetMessage_outcomes now req s p c :
  reachable s →
  registered s (MessageRequest_ID req) p c →
  let s1 := store p (set_LastSeen c now) s in
  GetMessage_lookup now req s = Done (Ok p) s1
  ∧ (∀ s2 c2 m rest elapsed pick,
       heap s2 !! p = Some c2 → ch_buf (Ch c2) = m :: rest →
       elapsed < 10 * time.Second →
       ∃ s', GetMessage_select elapsed pick p s2
             = Ready (Done (Ok (mkMessageResponse m)) s'))
  ∧ (∀ m rest, ch_buf (Ch c) = m :: rest →
       ∃ s', GetMessage now req s = Done (Ok (mkMessageResponse m)) s')
  ∧ (∀ s2 c2 elapsed pick,
       heap s2 !! p = Some c2 → ch_buf (Ch c2) = [] → ch_closed (Ch c2) = true →
       elapsed < 10 * time.Second →
       GetMessage_select elapsed pick p s2
       = Ready (Done (Fail ErrUserDisconnected) s2))
  ∧ (ch_buf (Ch c) = [] →
       (∀ elapsed pick, elapsed < 10 * time.Second →
          GetMessage_select elapsed pick p s1 = Blocked)
       ∧ (∀ elapsed pick, 10 * time.Second ≤ elapsed →
            GetMessage_select elapsed pick p s1 = Ready (Done (Fail ErrNoMessages) s1))
       ∧ GetMessage now req s = Done (Fail ErrNoMessages) s1
       ∧ ∃ s2,
           Leave (mkLeaveRequest (MessageRequest_ID req)) s1
           = Done (Ok (mkLeaveResponse true "User disconnected successfully")) s2
           ∧ ∀ elapsed pick, elapsed < 10 * time.Second →
               GetMessage_select elapsed pick p s2
               = Ready (Done (Fail ErrUserDisconnected) s2))
  ∧ (∀ s2 c2 elapsed pick,
       heap s2 !! p = Some c2 → 10 * time.Second ≤ elapsed →
       ∃ r s', GetMessage_select elapsed pick p s2 = Ready (Done r s')
               ∧ ((∃ m, r = Ok (mkMessageResponse m))
                  ∨ r = Fail ErrUserDisconnected ∨ r = Fail ErrNoMessages)).
Proof.
  intros Hreach Hr s1.
  pose proof (wf_reachable s Hreach) as Hwf.
  assert (Hne : MessageRequest_ID req ≠ "") by (eapply (named_reachable s Hreach), Hr).
  destruct (wf_registered s _ p c Hwf Hr) as [Hid Hopen].
  assert (Hh1 : heap s1 !! p = Some (set_LastSeen c now))
    by (eapply store_lookup_eq, Hr).
  split; [now apply GetMessage_lookup_registered|].
  split; [|split; [|split; [|split]]].
  - intros s2 c2 m rest elapsed pick Hh2 Hb Ht. eexists. eapply select_message; eauto.
  - intros m rest Hb.
    rewrite (GetMessage_registered now req s p c), Hb by assumption. eauto.
  - intros s2 c2 elapsed pick Hh2 Hb Hc Ht. eapply select_closed; eauto.
  - intros Hb. split; [|split; [|split]].
    + intros elapsed pick Ht. eapply select_blocked; eauto.
    + intros elapsed pick Ht. eapply select_timeout; eauto.
    + rewrite (GetMessage_registered now req s p c), Hb, Hopen by assumption.
      reflexivity.
    + eexists. split.
      * apply (Leave_registered (mkLeaveRequest (MessageRequest_ID req)) s1 p
                 (set_LastSeen c now)); [assumption|split; [apply Hr|assumption]|assumption].
      * intros elapsed pick Ht.
        eapply select_closed;
          [eapply store_lookup_eq; exact Hh1|assumption|reflexivity|assumption].
  - intros s2 c2 elapsed pick Hh2 Ht. eapply select_returns; eauto.
Qed.

(** Client [b] of the two clients polls at time 7. *)
Lemma C3_GetMessage_outcomes_witness :
  reachable two_clients ∧ registered two_clients "b" 1%nat
                      (mkClient "b" (make_chan 10) 0 (NewLimiter 1 5))
  ∧ GetMessage 7 (mkMessageRequest "b") two_clients
    = Done (Fail ErrNoMessages)
        (store 1%nat (set_LastSeen (mkClient "b" (make_chan 10) 0 (NewLimiter 1 5)) 7)
           two_clients).
Proof.
  assert (Hr : registered two_clients "b" 1%nat
                 (mkClient "b" (make_chan 10) 0 (NewLimiter 1 5)))
    by (split; vm_compute; reflexivity).
  assert (Hreach : reachable two_clients)
    by (eapply run_state_reachable; vm_compute; reflexivity).
  split; [exact Hreach|]. split; [exact Hr|].
  apply (C3_GetMessage_outcomes 7 (mkMessageRequest "b") two_clients 1%nat
           (mkClient "b" (make_chan 10) 0 (NewLimiter 1 5)) Hreach);
    [exact Hr|reflexivity].
Defined.

(** C9: a call of [GetMessage] for a registered client sets its [LastSeen]
    to the current time before it waits, whatever it returns in the end, and
    an [ERR_NO_MESSAGES] reply leaves the rest of the client as it was; the
    registry keeps the same entries and no other client changes. *)
Theorem C9_GetMessage_refreshes_LastSeen_only now req s p c :
  reachable s →
  registered s (MessageRequest_ID req) p c →
  GetMessage_lookup now req s = Done (Ok p) (store p (set_LastSeen c now) s)
  ∧ ∃ r s' c',
      GetMessage now req s = Done r s'
      ∧ streams s' = streams s
      ∧ goroutines s' = goroutines s
      ∧ length (heap s') = length (heap s)
      ∧ (∀ q, q ≠ p → heap s' !! q = heap s !! q)
      ∧ heap s' !! p = Some c'
      ∧ LastSeen c' = now
      ∧ ID c' = ID c ∧ RateLimiter c' = RateLimiter c
      ∧ (r = Fail ErrNoMessages → c' = set_LastSeen c now).
Proof.
  intros Hreach Hr.
  assert (Hne : MessageRequest_ID req ≠ "") by (eapply (named_reachable s Hreach), Hr).
  split; [now apply GetMessage_lookup_registered|].
  rewrite (GetMessage_registered now req s p c) by assumption.
  destruct (ch_buf (Ch c)) as [|m rest]; eexists _, _, _;
    (split; [reflexivity|]);
    (split; [reflexivity|]); (split; [reflexivity|]);
    (split; [apply store_length|]);
    (split; [intros q Hq; now apply store_lookup_ne|]);
    (split; [eapply store_lookup_eq, Hr|]);
    repeat split; discriminate.
Qed.

(** Client [b] of the two clients polls at time 7. *)
Lemma C9_GetMessage_witness :
  GetMessage_lookup 7 (mkMessageRequest "b") two_clients
  = Done (Ok 1%nat)
      (store 1%nat (set_LastSeen (mkClient "b" (make_chan 10) 0 (NewLimiter 1 5)) 7)
         two_clients)
  ∧ ∃ r s' c',
      GetMessage 7 (mkMessageRequest "b") two_clients = Done r s'
      ∧ streams s' = streams two_clients
      ∧ goroutines s' = goroutines two_clients
      ∧ length (heap s') = length (heap two_clients)
      ∧ (∀ q, q ≠ 1%nat → heap s' !! q = heap two_clients !! q)
      ∧ heap s' !! 1%nat = Some c'
      ∧ LastSeen c' = 7
      ∧ ID c' = "b" ∧ RateLimiter c' = NewLimiter 1 5
      ∧ (r = Fail ErrNoMessages
         → c' = set_LastSeen (mkClient "b" (make_chan 10) 0 (NewLimiter 1 5)) 7).
Proof.
  apply (C9_GetMessage_refreshes_LastSeen_only 7 (mkMessageRequest "b") two_clients
           1%nat (mkClient "b" (make_chan 10) 0 (NewLimiter 1 5))).
  - eapply run_state_reachable. vm_compute. reflexivity.
  - split; vm_compute; reflexivity.
Defined.

(** ** Eviction by the cleanup loop *)

(** C8: the cleanup loop and an active or idle client.
    (1) Over every run in which the client does not leave and, at every tick
        of the loop, has called [GetMessage] (or joined) no more than five
        minutes before, the client stays registered with an open channel.
    (2) A tick at which the client has been idle for more than five minutes
        removes it and closes its channel; afterwards [GetMessage] and
        [Leave] fail with [ERR_USER_NOT_FOUND], [SendMessage] with
        [ERR_SENDER_NOT_FOUND], and a [GetMessage] that was blocked on the
        client fails with [ERR_USER_DISCONNECTED].
    (3) With a tick every minute, such a tick comes at most six minutes
        after the client was last seen. *)
Theorem C8_cleanup_evicts_only_idle_clients s id p c :
  reachable s → registered s id p c →
  (∀ es s', polls_in_time id (LastSeen c) es → run es s = Done tt s' →
     ∃ c', registered s' id p c' ∧ ch_closed (Ch c') = false)
  ∧ (∀ now, stale now c →
       ∃ s', cleanup now s = Done tt s'
         ∧ streams s' !! id = None
         ∧ heap s' !! p = Some (set_Ch c (closed_chan (Ch c)))
         ∧ (∀ t, GetMessage t (mkMessageRequest id) s' = Done (Fail ErrUserNotFound) s')
         ∧ (∀ t req, valid_from id req →
              SendMessage t req s' = Done (Fail ErrSenderNotFound) s')
         ∧ Leave (mkLeaveRequest id) s' = Done (Fail ErrUserNotFound) s'
         ∧ (ch_buf (Ch c) = [] → ∀ elapsed pick, elapsed < 10 * time.Second →
              GetMessage_select elapsed pick p s'
              = Ready (Done (Fail ErrUserDisconnected) s')))
  ∧ (∀ now, ¬ stale now c → ∃ s', cleanup now s = Done tt s' ∧ registered s' id p c)
  ∧ (∀ start, start ≤ LastSeen c →
       ∃ k, 1 ≤ k ∧ stale (tick start k) c ∧ tick start k - LastSeen c ≤ 6 * time.Minute).
Proof.
  intros Hreach Hr.
  pose proof (wf_reachable s Hreach) as Hwf.
  assert (Hid : id ≠ "") by (eapply (named_reachable s Hreach), Hr).
  split; [|split; [|split]].
  - intros es s' Hp Hrun.
    destruct (alive_run id p Hid es s (LastSeen c) s' Hwf) as (seen' & c' & Hr' & _);
      [now exists c|assumption|assumption|].
    exists c'. split; [exact Hr'|].
    eapply wf_registered; [eapply wf_run; eauto|exact Hr'].
  - intros now Hst.
    destruct (cleanup_spec now s Hwf) as (s' & Hc & Hwf' & _ & _ & Hgone & _).
    destruct (Hgone id p c Hr Hst) as [Hs' Hh'].
    exists s'. split; [exact Hc|]. split; [exact Hs'|]. split; [exact Hh'|].
    split; [|split; [|split]].
    + intros t. now apply GetMessage_absent.
    + intros t req Hv. pose proof Hv as (Hfrom & _).
      apply SendMessage_sender_absent; rewrite Hfrom; assumption.
    + now apply Leave_absent.
    + intros Hb elapsed pick Ht. eapply select_closed; eauto.
  - intros now Hst.
    destruct (cleanup_spec now s Hwf) as (s' & Hc & _ & _ & Hkeep & _).
    exists s'. split; [exact Hc|]. now apply (Hkeep id p c).
  - intros start Hle. destruct (next_tick start (LastSeen c) Hle) as (k & Hk & Hlo & Hhi).
    exists k. now repeat split.
Qed.

(** Both of the two clients were last seen at time 0: [b] survives a tick
    at five minutes, and a tick one nanosecond later evicts it. *)
Lemma C8_cleanup_witness :
  (∃ s', cleanup (5 * time.Minute) two_clients = Done tt s'
         ∧ registered s' "b" 1%nat (mkClient "b" (make_chan 10) 0 (NewLimiter 1 5)))
  ∧ (∃ s', cleanup (5 * time.Minute + 1) two_clients = Done tt s'
           ∧ streams s' !! "b" = None).
Proof.
  assert (Hr : registered two_clients "b" 1%nat
                 (mkClient "b" (make_chan 10) 0 (NewLimiter 1 5)))
    by (split; vm_compute; reflexivity).
  assert (Hreach : reachable two_clients)
    by (eapply run_state_reachable; vm_compute; reflexivity).
  destruct (C8_cleanup_evicts_only_idle_clients two_clients "b" 1%nat _
              Hreach Hr) as (_ & Hgone & Hkeep & _).
  split.
  - apply Hkeep. unfold stale. vm_compute. discriminate.
  - destruct (Hgone (5 * time.Minute + 1)) as (s' & Hc & Hs & _).
    + unfold stale. vm_compute. reflexivity.
    + exists s'. now split.
Defined.

(** ** First in, first out *)

Lemma poll_buffered t req p (msgs : list string) :
  MessageRequest_ID req ≠ "" →
  ∀ s c rest,
    registered s (MessageRequest_ID req) p c →
    ch_buf (Ch c) = msgs ++ rest →
    ∃ s' c',
      poll (length msgs) t req s
      = Done ((λ m, Ok (mkMessageResponse m)) <$> msgs) s'
      ∧ registered s' (MessageRequest_ID req) p c'
      ∧ ch_buf (Ch c') = rest.
Proof.
  intros Hne. induction msgs as [|m msgs IH]; intros s c rest Hr Hb.
  - exists s, c. split; [reflexivity|]. split; [exact Hr|exact Hb].
  - cbn [length poll]. rewrite (GetMessage_registered t req s p c), Hb by assumption.
    cbn [app].
    set (c1 := set_Ch (set_LastSeen c t) _). set (s1 := store p c1 s).
    destruct (IH s1 c1 rest) as (s' & c' & Hp & Hr' & Hb').
    + split; [apply Hr|]. eapply store_lookup_eq, Hr.
    + reflexivity.
    + exists s', c'. rewrite Hp. split; [reflexivity|]. split; [exact Hr'|exact Hb'].
Qed.

(** ** A broadcast: [SendMessage] and the goroutines it started *)

(** After a successful call and the run of the goroutines it started, every
    other registered client was offered the formatted message once, the
    sender only had its limiter updated, and the registry and the older
    goroutines are as before. *)
Lemma broadcast_spec now req s r s1 :
  wf s →
  SendMessage now req s = Done (Ok r) s1 →
  let from := SendMessageRequest_From req in
  let message := from +:+ ": " +:+ SendMessageRequest_Message req in
  goroutines s1 = goroutines s ++ fanout from message s
  ∧ ∃ s2,
      run_goroutines (length (goroutines s))
        (length (goroutines s1) - length (goroutines s)) s1 = Done tt s2
      ∧ streams s2 = streams s
      ∧ goroutines s2 = goroutines s
      ∧ (∀ id q c, id ≠ from → registered s id q c →
           heap s2 !! q = Some (offer message c))
      ∧ (∀ p sender, registered s from p sender →
           heap s2 !! p
           = Some (set_RateLimiter sender (Allow now (RateLimiter sender)).2)).
Proof.
  intros Hwf H from message.
  destruct (SendMessage_success now req s r s1 H)
    as (Hv & p & sender & Hr & HA & Hne & ->).
  fold from message in Hne |- *. cbn [goroutines set_goroutines].
  split; [reflexivity|]. rewrite length_app, Nat.add_comm, Nat.add_sub.
  set (s1 := set_goroutines _ _).
  assert (Hother : ∀ id q, id ≠ from → streams s !! id = Some q →
                           heap s1 !! q = heap s !! q).
  { intros id q Hid Hq. unfold s1. cbn [heap set_goroutines].
    rewrite store_lookup_ne; [reflexivity|].
    intros <-. apply Hid. eapply wf_unique; eauto. apply Hr. }
  destruct (run_goroutines_spec (fanout from message s) (goroutines s) s1)
    as (s2 & Hrun & Hs & Hg & Hoff & Hframe).
  - reflexivity.
  - now apply fanout_NoDup.
  - intros q m Hin. apply elem_of_fanout in Hin as (-> & id & Hid & Hq).
    rewrite (Hother id q Hid Hq). destruct (Hwf _ _ Hq) as (c & Hh & _ & Hc). eauto.
  - exists s2. split; [exact Hrun|]. split; [exact Hs|]. split; [exact Hg|]. split.
    + intros id q c Hid [Hq Hh]. apply Hoff.
      * apply elem_of_fanout. split; [reflexivity|]. eauto.
      * now rewrite (Hother id q Hid Hq).
    + intros p' sender' [Hp' Hh']. destruct Hr as [Hp Hh].
      change (streams s !! from = Some p) in Hp. rewrite Hp in Hp'. injection Hp' as <-. rewrite Hh in Hh'. injection Hh' as <-.
      rewrite Hframe.
      * unfold s1. cbn [heap set_goroutines]. eapply store_lookup_eq, Hh.
      * intros Hin. apply fanout_targets in Hin as (id & Hid & Hq).
        apply Hid. eapply wf_unique; eauto.
Qed.

(** C1: when [a] and [b] are two distinct registered clients and
    [SendMessage] from [a] with text [t] succeeds, the call started the
    goroutines of the fan-out; once they have run, the mailbox of [b], which
    had room, holds what it held followed by ["a: t"], so that the calls of
    [GetMessage] for [b] return the older messages and then ["a: t"] (at once
    if the mailbox was empty), and the mailbox of [a] is as it was. *)
Theorem C1_broadcast_reaches_other_client now t s a b pa pb ca cb r s1 :
  reachable s → a ≠ b →
  registered s a pa ca → registered s b pb cb →
  (length (ch_buf (Ch cb)) < ch_cap (Ch cb))%nat →
  SendMessage now (mkSendMessageRequest a t) s = Done (Ok r) s1 →
  ∃ s2 ca' cb',
    run_goroutines (length (goroutines s))
      (length (goroutines s1) - length (goroutines s)) s1 = Done tt s2
    ∧ registered s2 b pb cb'
    ∧ ch_buf (Ch cb') = ch_buf (Ch cb) ++ [a +:+ ": " +:+ t]
    ∧ registered s2 a pa ca'
    ∧ Ch ca' = Ch ca
    ∧ (∀ t', ∃ s3,
         poll (S (length (ch_buf (Ch cb)))) t' (mkMessageRequest b) s2
         = Done (((λ m, Ok (mkMessageResponse m)) <$> ch_buf (Ch cb))
                   ++ [Ok (mkMessageResponse (a +:+ ": " +:+ t))]) s3)
    ∧ (ch_buf (Ch cb) = [] →
       ∀ t', ∃ s3, GetMessage t' (mkMessageRequest b) s2
                   = Done (Ok (mkMessageResponse (a +:+ ": " +:+ t))) s3).
Proof.
  intros Hreach Hab Hra Hrb Hroom H.
  pose proof (wf_reachable s Hreach) as Hwf.
  assert (Hb : b ≠ "") by (eapply (named_reachable s Hreach), Hrb).
  destruct (broadcast_spec now _ s r s1 Hwf H) as (_ & s2 & Hrun & Hs & _ & Hoff & Hsender).
  cbn [SendMessageRequest_From SendMessageRequest_Message] in Hoff, Hsender.
  set (message := a +:+ ": " +:+ t) in *.
  assert (Hoffer : offer message cb
                   = set_Ch cb (mkChan (ch_buf (Ch cb) ++ [message]) (ch_cap (Ch cb))
                                  (ch_closed (Ch cb)))).
  { unfold offer. apply Nat.ltb_lt in Hroom. now rewrite Hroom. }
  assert (Hrb2 : registered s2 b pb (offer message cb)).
  { split; [rewrite Hs; apply Hrb|]. apply (Hoff b pb cb); [congruence|exact Hrb]. }
  exists s2, (set_RateLimiter ca (Allow now (RateLimiter ca)).2), (offer message cb).
  split; [exact Hrun|]. split; [exact Hrb2|].
  split; [now rewrite Hoffer|].
  split; [split; [rewrite Hs; apply Hra|now apply Hsender]|].
  split; [reflexivity|]. split.
  - intros t'.
    destruct (poll_buffered t' (mkMessageRequest b) pb (ch_buf (Ch cb) ++ [message]) Hb
                s2 (offer message cb) []) as (s3 & c3 & Hp & _).
    + exact Hrb2.
    + rewrite Hoffer. cbn. now rewrite app_nil_r.
    + exists s3. rewrite length_app, Nat.add_comm in Hp. cbn [length Nat.add] in Hp.
      rewrite Hp, fmap_app. reflexivity.
  - intros He t'. rewrite (GetMessage_registered t' _ s2 pb (offer message cb)) by assumption.
    rewrite Hoffer. cbn [Ch set_Ch ch_buf]. rewrite He. cbn [app]. eauto.
Qed.

(** In the state with clients [a] and [b], [a] sends "hi" at time 5. *)
Lemma C1_broadcast_witness :
  ∃ s1 s2,
    SendMessage 5 hi_from_a two_clients
    = Done (Ok (mkSendMessageResponse true "Message broadcasted to clients")) s1
    ∧ run_goroutines 0 1 s1 = Done tt s2
    ∧ GetMessage 6 (mkMessageRequest "b") s2 = Done (Ok (mkMessageResponse "a: hi")) 
        (run_state [EJoin 0 req_a; EJoin 0 req_b; ESendMessage 5 hi_from_a; EGo 0;
                    EGetMessage 6 (mkMessageRequest "b")]).
Proof.
  assert (Hreach : reachable two_clients)
    by (eapply run_state_reachable; vm_compute; reflexivity).
  assert (Hra : registered two_clients "a" 0%nat
                  (mkClient "a" (make_chan 10) 0 (NewLimiter 1 5)))
    by (split; vm_compute; reflexivity).
  assert (Hrb : registered two_clients "b" 1%nat
                  (mkClient "b" (make_chan 10) 0 (NewLimiter 1 5)))
    by (split; vm_compute; reflexivity).
  destruct (SendMessage 5 hi_from_a two_clients) as [[r|e] s1|v] eqn:E;
    [|vm_compute in E; discriminate..].
  assert (Hab : "a" ≠ "b") by discriminate.
  assert (Hroom : (length (ch_buf (make_chan 10)) < ch_cap (make_chan 10))%nat)
    by (cbn; lia).
  destruct (C1_broadcast_reaches_other_client 5 "hi" two_clients "a" "b" 0%nat 1%nat _ _
              r s1 Hreach Hab Hra Hrb Hroom E) as (s2 & ca' & cb' & Hrun & _).
  exists s1, s2. vm_compute in E. injection E as <- <-.
  split; [reflexivity|]. vm_compute in Hrun. injection Hrun as <-.
  split; vm_compute; reflexivity.
Defined.





(** ** The token bucket *)

Section Bucket.
Variable lim : Limiter.
Hypothesis Hok : limiter_ok lim.

Lemma advance_available t : (advance t lim).2 = available t lim.
Proof using Hok.
  destruct Hok as (Hl & Hb & _). unfold advance, available. cbn [snd].
  rewrite Hl, Hb. destruct (t <? lim_last lim) eqn:E.
  - apply Z.ltb_lt in E. f_equal. lia.
  - apply Z.ltb_ge in E. f_equal. lia.
Qed.


Lemma Allow_needs t :
  (Allow t lim).1 = true → time.Second - 1 ≤ available t lim.
Proof using Hok.
  unfold Allow. rewrite advance_available.
  destruct (_ || _) eqn:E; [intros _|discriminate].
  apply orb_true_iff in E as [E|E].
  - apply Z.leb_le in E. lia.
  - apply andb_true_iff in E as [_ E]. apply Z.eqb_eq in E. lia.
Qed.

Lemma available_burst t : available t lim ≤ 5 * time.Second.
Proof using Type. unfold available. lia. Qed.

Lemma Allow_false t : (Allow t lim).1 = false → (Allow t lim).2 = lim.
Proof using Type. unfold Allow. destruct (_ || _); [discriminate|reflexivity]. Qed.

(** An allowed call takes exactly one token. *)
Lemma Allow_takes t :
  (Allow t lim).1 = true →
  available t (Allow t lim).2 = available t lim - time.Second
  ∧ lim_tokens (Allow t lim).2 = available t lim - time.Second.
Proof using Hok.
  intros HA. pose proof (Allow_needs t HA) as Hs.
  pose proof (available_burst t) as Hb5.
  unfold Allow in *. rewrite advance_available in *.
  destruct (_ || _); [|discriminate]. cbn [snd lim_tokens lim_last].
  split; [|reflexivity]. unfold available at 1. cbn [lim_tokens lim_last].
  unfold available in *. lia.
Qed.

(** The bucket refills by at most one token per second, up to five, and holds
    at least the tokens it was left with. *)
Lemma available_later lo t : lo ≤ t → available t lim ≤ available lo lim + (t - lo).
Proof using Type. intros H. unfold available. lia. Qed.

Lemma available_tokens t : lim_tokens lim ≤ available t lim.
Proof using Hok. destruct Hok as (_ & _ & Ht). unfold available. lia. Qed.

End Bucket.

(** ** Calls of [SendMessage] one after the other *)



(** One call by a registered sender: it does not panic, the sender stays
    registered, and the tokens that remain up to [hi] go down by one when the
    call takes a token.  A valid call that takes none is rate limited. *)
Lemma SendMessage_tokens t req s a p c lo hi :
  wf s → registered s a p c → limiter_ok (RateLimiter c) →
  SendMessageRequest_From req = a → lo ≤ t ≤ hi →
  ∃ r s' c',
    SendMessage t req s = Done r s'
    ∧ wf s' ∧ registered s' a p c' ∧ limiter_ok (RateLimiter c')
    ∧ (if took_token r then time.Second else 0)
      + (available t (RateLimiter c') + (hi - t))
      ≤ available lo (RateLimiter c) + (hi - lo)
    ∧ (valid_from a req → took_token r = false → r = Fail ErrRateLimit).
Proof.
  intros Hwf Hr Hok Hfrom Ht.
  assert (Hsame : available t (RateLimiter c) + (hi - t)
                  ≤ available lo (RateLimiter c) + (hi - lo)).
  { pose proof (available_later (RateLimiter c) lo t). lia. }
  assert (Hv : {valid_from a req} + {¬ valid_from a req}).
  { unfold valid_from. destruct (decide (SendMessageRequest_From req = a)); [|right; tauto].
    destruct (decide (a = "")); [right; tauto|].
    destruct (decide (SendMessageRequest_Message req = "")); [right; tauto|].
    destruct (le_lt_dec (String.length (SendMessageRequest_Message req)) 500);
      [left; tauto|right; lia]. }
  destruct Hv as [Hv|Hnv].
  - destruct ((Allow t (RateLimiter c)).1) eqn:HA.
    + (* a token is taken *)
      pose proof (SendMessage_allowed t req s a p c Hv Hr HA) as E. cbv zeta in E.
      destruct (Allow_takes (RateLimiter c) Hok t HA) as [Hav _].
      set (c' := set_RateLimiter c (Allow t (RateLimiter c)).2) in *.
      assert (Hwf' : wf (set_goroutines (store p c' s)
                (goroutines s ++ fanout a (a +:+ ": " +:+ SendMessageRequest_Message req) s))).
      { apply wf_set_goroutines. eapply wf_store; [exact Hwf|apply Hr|reflexivity..]. }
      assert (Hr' : registered (set_goroutines (store p c' s)
                (goroutines s ++ fanout a (a +:+ ": " +:+ SendMessageRequest_Message req) s))
                a p c').
      { split; [apply Hr|]. cbn [heap set_goroutines]. eapply store_lookup_eq, Hr. }
      assert (Hok' : limiter_ok (RateLimiter c')) by now apply limiter_ok_Allow.
      destruct (decide _); eexists _, _, c'; (split; [exact E|]);
        (split; [exact Hwf'|]); (split; [exact Hr'|]); (split; [exact Hok'|]);
        (split; [|discriminate]); cbn [took_token RateLimiter c' set_RateLimiter];
        try rewrite bool_decide_eq_true_2 by reflexivity; lia.
    + (* the limiter refuses *)
      exists (Fail ErrRateLimit), s, c.
      split; [now apply (SendMessage_refused t req s a p c)|].
      split; [exact Hwf|]. split; [exact Hr|]. split; [exact Hok|]. split; [|reflexivity].
      change (took_token (Fail (A := SendMessageResponse) ErrRateLimit)) with false.
      cbv iota. lia.
  - (* the validation fails *)
    assert (E : ∃ e, SendMessage t req s = Done (Fail e) s
                     ∧ (e = ErrMissingField ∨ e = ErrMessageTooLong)).
    { destruct (decide (SendMessageRequest_From req = ""
                        ∨ SendMessageRequest_Message req = "")) as [Hm|Hm].
      - exists ErrMissingField. split; [now apply SendMessage_missing_field|now left].
      - exists ErrMessageTooLong. split; [|now right].
        apply SendMessage_too_long; [tauto|tauto|].
        destruct (le_lt_dec (String.length (SendMessageRequest_Message req)) 500);
          [|assumption].
        exfalso. apply Hnv. unfold valid_from. rewrite <- Hfrom in *. tauto. }
    destruct E as (e & E & He). exists (Fail e), s, c.
    split; [exact E|]. split; [exact Hwf|]. split; [exact Hr|]. split; [exact Hok|].
    split; [|tauto].
    assert (Hno : took_token (Fail (A := SendMessageResponse) e) = false)
      by (destruct He as [-> | ->]; reflexivity).
    rewrite Hno. cbv iota. lia.
Qed.

(** The calls of one sender within a window take no more tokens than were
    available at its start plus one per second of the window, and the
    billionth of an early grant. *)
Lemma send_all_tokens a p hi calls :
  ∀ s c lo,
    wf s → registered s a p c → limiter_ok (RateLimiter c) →
    Forall (λ call, SendMessageRequest_From call.2 = a) calls →
    lo ≤ hi → issued lo hi calls →
    ∃ rs s',
      send_all calls s = Done rs s'
      ∧ Forall2 (λ call r, valid_from a call.2 → took_token r = false →
                           r = Fail ErrRateLimit) calls rs
      ∧ Z.of_nat (tokens_taken rs) * time.Second
        ≤ available lo (RateLimiter c) + (hi - lo) + 1.
Proof.
  induction calls as [|[t req] calls IH]; intros s c lo Hwf Hr Hok Hfrom Hlohi Hiss.
  - exists [], s. split; [reflexivity|]. split; [constructor|].
    pose proof (available_tokens (RateLimiter c) Hok lo).
    destruct Hok as (_ & _ & Htok). cbn. lia.
  - cbn [issued fst] in Hiss. destruct Hiss as [Ht Hiss].
    apply Forall_cons in Hfrom as [Hf Hfrom]. cbn [snd] in Hf.
    destruct (SendMessage_tokens t req s a p c lo hi Hwf Hr Hok Hf Ht)
      as (r & s1 & c1 & E & Hwf1 & Hr1 & Hok1 & Hpot & Hrl).
    destruct (IH s1 c1 t Hwf1 Hr1 Hok1 Hfrom (proj2 Ht) Hiss) as (rs & s' & E' & HF & Hb).
    exists (r :: rs), s'. cbn [send_all]. rewrite E, E'.
    split; [reflexivity|]. split; [constructor; assumption|].
    unfold tokens_taken in *. cbn [how_many].
    destruct (took_token r); lia.
Qed.

Lemma successes_tokens_taken {A : Type} (rs : list (Reply A)) :
  (successes rs ≤ tokens_taken rs)%nat.
Proof.
  unfold successes, tokens_taken. induction rs as [|[x|e] rs IH]; cbn [how_many succeeded took_token].
  - lia.
  - lia.
  - destruct (bool_decide _); lia.
Qed.





(** The early grant: from a full bucket six calls within 999999999
    nanoseconds can all succeed, the sixth one nanosecond before its token is
    due, and they leave the counter a billionth of a token below zero. *)
Example six_calls_early_grant :
  ∃ s' c,
    send_all six_in_a_second rounds_early
    = Done (replicate 6 (Ok (mkSendMessageResponse true "Message broadcasted to clients"))) s'
    ∧ heap s' !! 0%nat = Some c
    ∧ lim_tokens (RateLimiter c) = -1.
Proof.
  eexists _, _. split; [vm_compute; reflexivity|]. split; vm_compute; reflexivity.
Qed.





(** * Further properties of the code *)

(** ** [Join] and [Leave] *)

Lemma Join_fresh now req s :
  JoinRequest_ID req ≠ "" → streams s !! JoinRequest_ID req = None →
  ∃ s',
    Join now req s = Done (Ok (mkJoinResponse true "User joined successfully")) s'
    ∧ registered s' (JoinRequest_ID req) (length (heap s))
        (mkClient (JoinRequest_ID req) (make_chan 10) now (NewLimiter 1 5))
    ∧ length (heap s') = S (length (heap s))
    ∧ size (streams s') = S (size (streams s))
    ∧ (∀ id', id' ≠ JoinRequest_ID req → streams s' !! id' = streams s !! id')
    ∧ (∀ p c, heap s !! p = Some c → heap s' !! p = Some c)
    ∧ goroutines s' = goroutines s.
Proof.
  intros Hne Hs. unfold Join. destruct (decide _); [contradiction|]. rewrite Hs.
  eexists. split; [reflexivity|]. cbn [streams heap goroutines].
  split; [split; cbn [streams heap]|].
  { apply lookup_insert_eq. }
  { now rewrite lookup_app_r, Nat.sub_diag by lia. }
  split; [rewrite length_app; cbn; lia|].
  split; [now apply map_size_insert_None|].
  split; [intros id' Hid'; now apply lookup_insert_ne|].
  split; [intros p c Hp; rewrite lookup_app_l; [exact Hp|eapply lookup_lt_Some, Hp]|].
  reflexivity.
Qed.

Lemma Join_registered now req s :
  JoinRequest_ID req ≠ "" → is_Some (streams s !! JoinRequest_ID req) →
  Join now req s = Done (Fail ErrAlreadyJoined) s.
Proof.
  intros Hne [p Hs]. unfold Join. destruct (decide _); [contradiction|]. now rewrite Hs.
Qed.

(** X1: [Join] never panics and has three outcomes.  An empty identifier is
    refused with [ERR_MISSING_USER_ID] and a registered one with
    [ERR_ALREADY_JOINED], both leaving the state as it is.  Otherwise a new
    client is allocated at a fresh address with an empty open channel of
    capacity 10, the current time and a full limiter; the registry grows by
    this one entry, no existing client changes, and a second [Join] of the
    same identifier is refused. *)
Theorem X1_Join_outcomes now req s :
  let id := JoinRequest_ID req in
  (id = "" ∧ Join now req s = Done (Fail ErrMissingUserID) s)
  ∨ (id ≠ "" ∧ is_Some (streams s !! id)
     ∧ Join now req s = Done (Fail ErrAlreadyJoined) s)
  ∨ (id ≠ "" ∧ streams s !! id = None
     ∧ ∃ s',
         Join now req s = Done (Ok (mkJoinResponse true "User joined successfully")) s'
         ∧ registered s' id (length (heap s))
             (mkClient id (make_chan 10) now (NewLimiter 1 5))
         ∧ length (heap s') = S (length (heap s))
         ∧ size (streams s') = S (size (streams s))
         ∧ (∀ id', id' ≠ id → streams s' !! id' = streams s !! id')
         ∧ (∀ p c, heap s !! p = Some c → heap s' !! p = Some c)
         ∧ goroutines s' = goroutines s
         ∧ ∀ now', Join now' req s' = Done (Fail ErrAlreadyJoined) s').
Proof.
  intros id. destruct (decide (id = "")) as [He|Hne].
  { left. split; [exact He|]. unfold Join. fold id.
    destruct (decide (id = "")); [reflexivity|contradiction]. }
  right. destruct (streams s !! id) as [p|] eqn:Hs.
  { left. split; [exact Hne|]. split; [eauto|]. apply Join_registered; [exact Hne|].
    eexists. exact Hs. }
  right. split; [exact Hne|]. split; [reflexivity|].
  destruct (Join_fresh now req s Hne Hs)
    as (s' & HJ & Hr & Hlen & Hsize & Hother & Hkeep & Hg).
  exists s'. repeat (split; [assumption|]).
  intros now'. apply Join_registered; [exact Hne|]. destruct Hr as [Hr _].
  eexists. exact Hr.
Qed.

(** X2: [Leave] in a state of the service never panics.  It refuses an
    empty identifier with [ERR_MISSING_USER_ID] and an unknown one with
    [ERR_USER_NOT_FOUND], leaving the state as it is.  Otherwise it deletes
    exactly this entry and closes the channel of the client, keeping what the
    channel holds; no other client and no pending goroutine changes.
    Afterwards the identifier is unknown to [Leave], [GetMessage] and
    [SendMessage], and no later broadcast starts a goroutine for the departed
    client. *)
Theorem X2_Leave_outcomes req s :
  reachable s →
  let id := LeaveRequest_ID req in
  (id = "" ∧ Leave req s = Done (Fail ErrMissingUserID) s)
  ∨ (id ≠ "" ∧ streams s !! id = None ∧ Leave req s = Done (Fail ErrUserNotFound) s)
  ∨ (∃ p c s',
       registered s id p c
       ∧ Leave req s = Done (Ok (mkLeaveResponse true "User disconnected successfully")) s'
       ∧ streams s' = delete id (streams s)
       ∧ S (size (streams s')) = size (streams s)
       ∧ heap s' !! p = Some (set_Ch c (closed_chan (Ch c)))
       ∧ (∀ q, q ≠ p → heap s' !! q = heap s !! q)
       ∧ goroutines s' = goroutines s
       ∧ Leave req s' = Done (Fail ErrUserNotFound) s'
       ∧ (∀ t, GetMessage t (mkMessageRequest id) s' = Done (Fail ErrUserNotFound) s')
       ∧ (∀ t r, valid_from id r → SendMessage t r s' = Done (Fail ErrSenderNotFound) s')
       ∧ (∀ from m, p ∉ (fanout from m s').*1)).
Proof.
  intros Hreach id. pose proof (wf_reachable s Hreach) as Hwf.
  destruct (decide (id = "")) as [He|Hne].
  { left. split; [exact He|]. unfold Leave. fold id.
    destruct (decide (id = "")); [reflexivity|contradiction]. }
  right. destruct (streams s !! id) as [p|] eqn:Hs.
  2:{ left. split; [exact Hne|]. split; [reflexivity|]. now apply Leave_absent. }
  right. destruct (Hwf _ _ Hs) as (c & Hh & Hid & Hopen).
  assert (Hr : registered s id p c) by now split.
  assert (Hgone : streams (evict id p c s) !! id = None)
    by (unfold evict; rewrite store_streams; cbn [streams set_streams];
        apply lookup_delete_eq).
  exists p, c, (evict id p c s).
  split; [exact Hr|]. split; [now apply Leave_registered|].
  split; [reflexivity|].
  split.
  { unfold evict. rewrite store_streams. cbn [streams set_streams].
    rewrite map_size_delete, Hs.
    assert (size (streams s) ≠ 0%nat); [|lia].
    intros H0. apply map_size_empty_iff in H0. rewrite H0 in Hs.
    now rewrite lookup_empty in Hs. }
  split; [unfold evict; eapply store_lookup_eq; exact Hh|].
  split; [intros q Hq; unfold evict; now rewrite store_lookup_ne by congruence|].
  split; [reflexivity|].
  split; [now apply Leave_absent|].
  split; [intros t; now apply GetMessage_absent|].
  split.
  { intros t r Hv. pose proof Hv as (Hfrom & _).
    apply SendMessage_sender_absent; rewrite Hfrom; assumption. }
  intros from m Hin. apply fanout_targets in Hin as (id' & _ & Hid').
  unfold evict in Hid'. rewrite store_streams in Hid'. cbn [streams set_streams] in Hid'.
  apply lookup_delete_Some in Hid' as [Hne' Hid'].
  apply Hne'. eapply wf_unique; eauto.
Qed.

(** Client [b] leaves the two clients. *)
Lemma X2_Leave_witness :
  ∃ s', Leave (mkLeaveRequest "b") two_clients
        = Done (Ok (mkLeaveResponse true "User disconnected successfully")) s'
        ∧ streams s' !! "b" = None.
Proof.
  assert (Hreach : reachable two_clients)
    by (eapply run_state_reachable; vm_compute; reflexivity).
  destruct (X2_Leave_outcomes (mkLeaveRequest "b") two_clients Hreach)
    as [[He _]|[(_ & Hs & _)|(p & c & s' & _ & HL & Hs' & _)]].
  - discriminate He.
  - vm_compute in Hs. discriminate Hs.
  - exists s'. split; [exact HL|]. rewrite Hs'. apply lookup_delete_eq.
Defined.

(** A call of [GetMessage] by a registered client whose mailbox is empty
    holds the client and waits: the [select] stays blocked until the ten
    seconds have passed, and fails with [ERR_NO_MESSAGES] if it finds the
    state like this when they have. *)
Lemma GetMessage_waits now req s p c :
  MessageRequest_ID req ≠ "" →
  registered s (MessageRequest_ID req) p c →
  ch_buf (Ch c) = [] → ch_closed (Ch c) = false →
  let s1 := store p (set_LastSeen c now) s in
  GetMessage_lookup now req s = Done (Ok p) s1
  ∧ (∀ elapsed pick, elapsed < 10 * time.Second →
       GetMessage_select elapsed pick p s1 = Blocked)
  ∧ (∀ elapsed pick, 10 * time.Second ≤ elapsed →
       GetMessage_select elapsed pick p s1 = Ready (Done (Fail ErrNoMessages) s1)).
Proof.
  intros Hne Hr Hb Hopen s1.
  assert (Hh : heap s1 !! p = Some (set_LastSeen c now))
    by (eapply store_lookup_eq, Hr).
  split; [now apply GetMessage_lookup_registered|]. split.
  - intros elapsed pick Ht. now apply (select_blocked elapsed pick p s1 _ Hh).
  - intros elapsed pick Ht. now apply (select_timeout elapsed pick p s1 _ Hh).
Qed.

(** X3: a client that leaves and joins again under the same identifier
    gets a new, empty mailbox at a new address.  The messages that were
    pending when it left stay in the closed channel of the old client: the
    next call of [GetMessage] holds the new client, whose mailbox has none of
    them, so that its [select] stays blocked until the ten seconds have
    passed and, with nothing delivered in the meantime, then fails with
    [ERR_NO_MESSAGES]. *)
Theorem X3_rejoin_gets_empty_mailbox now t s id p c :
  reachable s → registered s id p c →
  ∃ s1 s2 s3,
    Leave (mkLeaveRequest id) s
    = Done (Ok (mkLeaveResponse true "User disconnected successfully")) s1
    ∧ Join now (mkJoinRequest id) s1
      = Done (Ok (mkJoinResponse true "User joined successfully")) s2
    ∧ registered s2 id (length (heap s))
        (mkClient id (make_chan 10) now (NewLimiter 1 5))
    ∧ p ≠ length (heap s)
    ∧ heap s2 !! p = Some (set_Ch c (closed_chan (Ch c)))
    ∧ GetMessage_lookup t (mkMessageRequest id) s2 = Done (Ok (length (heap s))) s3
    ∧ heap s3 !! p = Some (set_Ch c (closed_chan (Ch c)))
    ∧ (∀ elapsed pick, elapsed < 10 * time.Second →
         GetMessage_select elapsed pick (length (heap s)) s3 = Blocked)
    ∧ (∀ elapsed pick, 10 * time.Second ≤ elapsed →
         GetMessage_select elapsed pick (length (heap s)) s3
         = Ready (Done (Fail ErrNoMessages) s3)).
Proof.
  intros Hreach Hr. pose proof (wf_reachable s Hreach) as Hwf.
  assert (Hne : id ≠ "") by (eapply (named_reachable s Hreach), Hr).
  destruct (wf_registered s id p c Hwf Hr) as [_ Hopen].
  pose proof (Leave_registered (mkLeaveRequest id) s p c Hne Hr Hopen) as HL.
  cbn [LeaveRequest_ID] in HL. set (s1 := evict id p c s) in *.
  assert (Hs1 : streams s1 !! id = None)
    by (unfold s1, evict; rewrite store_streams; cbn [streams set_streams];
        apply lookup_delete_eq).
  assert (Hlen : length (heap s1) = length (heap s))
    by (unfold s1, evict; rewrite store_length; reflexivity).
  destruct (Join_fresh now (mkJoinRequest id) s1 Hne Hs1)
    as (s2 & HJ & Hr2 & _ & _ & _ & Hkeep & _).
  cbn [JoinRequest_ID] in *. rewrite Hlen in Hr2.
  assert (Hp : (p < length (heap s))%nat) by (eapply lookup_lt_Some, Hr).
  assert (Hold : heap s2 !! p = Some (set_Ch c (closed_chan (Ch c))))
    by (apply Hkeep; unfold s1, evict; eapply store_lookup_eq, Hr).
  destruct (GetMessage_waits t (mkMessageRequest id) s2 _ _ Hne Hr2 eq_refl eq_refl)
    as (Hlook & Hblocked & Htimeout).
  eexists s1, s2, _. split; [exact HL|]. split; [exact HJ|]. split; [exact Hr2|].
  split; [lia|]. split; [exact Hold|]. split; [exact Hlook|].
  split; [|split; [exact Hblocked|exact Htimeout]].
  rewrite store_lookup_ne by lia. exact Hold.
Qed.

(** Client [b] has the message of [a] in its mailbox, leaves and joins
    again: the message is not in the mailbox that the next call waits on. *)
Lemma X3_rejoin_witness :
  GetMessage 8 (mkMessageRequest "b") b_has_mail
  = Done (Ok (mkMessageResponse "a: hi"))
      (run_state [EJoin 0 req_a; EJoin 0 req_b; ESendMessage 1 hi_from_a; EGo 0;
                  EGetMessage 8 (mkMessageRequest "b")])
  ∧ ∃ s1 s2 s3,
      Leave (mkLeaveRequest "b") b_has_mail
      = Done (Ok (mkLeaveResponse true "User disconnected successfully")) s1
      ∧ Join 9 (mkJoinRequest "b") s1
        = Done (Ok (mkJoinResponse true "User joined successfully")) s2
      ∧ GetMessage_lookup 10 (mkMessageRequest "b") s2 = Done (Ok 2%nat) s3
      ∧ GetMessage_select 0 false 2 s3 = Blocked.
Proof.
  split; [vm_compute; reflexivity|].
  assert (Hreach : reachable b_has_mail)
    by (eapply run_state_reachable; vm_compute; reflexivity).
  assert (Hr : registered b_has_mail "b" 1%nat
                 (mkClient "b" (mkChan ["a: hi"] 10 false) 0 (NewLimiter 1 5)))
    by (split; vm_compute; reflexivity).
  destruct (X3_rejoin_gets_empty_mailbox 9 10 b_has_mail "b" 1%nat _ Hreach Hr)
    as (s1 & s2 & s3 & HL & HJ & _ & _ & _ & HG & _ & Hblocked & _).
  exists s1, s2, s3. split; [exact HL|]. split; [exact HJ|]. split; [exact HG|].
  apply (Hblocked 0 false). vm_compute. reflexivity.
Defined.

(** ** What becomes of an allocated client *)

Lemma evolves_refl c : evolves c c.
Proof. repeat split; auto. Qed.

Lemma evolves_trans c1 c2 c3 : evolves c1 c2 → evolves c2 c3 → evolves c1 c3.
Proof.
  intros (Hi1 & Hc1 & H1) (Hi2 & Hc2 & H2). split; [congruence|]. split; [congruence|].
  intros Hcl. destruct (H1 Hcl) as [Hcl2 Hs2]. destruct (H2 Hcl2) as [Hcl3 Hs3].
  split; [exact Hcl3|]. etrans; eassumption.
Qed.

Lemma store_evolves q x s c0 :
  heap s !! q = Some c0 → evolves c0 x →
  ∀ p c, heap s !! p = Some c → ∃ c', heap (store q x s) !! p = Some c' ∧ evolves c c'.
Proof.
  intros Hq He p c Hp. destruct (decide (q = p)) as [E|Hne].
  - subst p. rewrite Hq in Hp. injection Hp as <-. exists x.
    split; [eapply store_lookup_eq, Hq|exact He].
  - exists c. rewrite store_lookup_ne by assumption. split; [exact Hp|apply evolves_refl].
Qed.

Lemma close_client_evolves q s s' :
  close_client q s = Done tt s' →
  ∀ p c, heap s !! p = Some c → ∃ c', heap s' !! p = Some c' ∧ evolves c c'.
Proof.
  unfold close_client, close_chan.
  destruct (heap s !! q) as [c0|] eqn:Hq; [|discriminate].
  destruct (ch_closed (Ch c0)) eqn:Hc; [discriminate|]. intros [= <-].
  apply (store_evolves q _ s c0 Hq). repeat split. cbn. congruence.
Qed.

Lemma cleanup_evolves now (l : list (string * ptr)) :
  ∀ s s', foldl (reap now) (Done tt s) l = Done tt s' →
    ∀ p c, heap s !! p = Some c → ∃ c', heap s' !! p = Some c' ∧ evolves c c'.
Proof.
  induction l as [|e l IH]; intros s s'; cbn [foldl].
  - intros [= <-] p c Hp. exists c. split; [exact Hp|apply evolves_refl].
  - destruct (reap now (Done tt s) e) as [[] s1|v] eqn:E.
    + intros Hrun p c Hp.
      assert (H1 : ∃ c1, heap s1 !! p = Some c1 ∧ evolves c c1).
      { unfold reap in E. destruct (heap s !! e.2) as [c0|]; [|discriminate].
        destruct (_ <? _).
        - destruct (close_client e.2 s) as [[] s2|] eqn:E2; [|discriminate].
          injection E as <-. apply (close_client_evolves _ _ _ E2 p c Hp).
        - injection E as <-. exists c. split; [exact Hp|apply evolves_refl]. }
      destruct H1 as (c1 & Hp1 & He1).
      destruct (IH s1 s' Hrun p c1 Hp1) as (c' & Hp' & He').
      exists c'. split; [exact Hp'|]. eapply evolves_trans; eassumption.
    + assert (Hp : ∀ v, foldl (reap now) (Panic v) l = Panic v)
        by (intros v'; clear; induction l; [reflexivity|assumption]).
      rewrite Hp. discriminate.
Qed.

Lemma step_evolves e s s' :
  step e s = Done tt s' →
  ∀ p c, heap s !! p = Some c → ∃ c', heap s' !! p = Some c' ∧ evolves c c'.
Proof.
  destruct e as [now req|now req|req|now req|i|now|q0 b0]; cbn [step].
  - unfold Join. destruct (decide _); [|destruct (streams s !! _)]; intros [= <-] p c Hp;
      exists c; (split; [|apply evolves_refl]); try exact Hp.
    cbn [heap]. rewrite lookup_app_l; [exact Hp|eapply lookup_lt_Some, Hp].
  - unfold SendMessage.
    destruct (decide _); [intros [= <-] p c Hp; exists c; split; [exact Hp|apply evolves_refl]|].
    destruct (_ <? _)%nat;
      [intros [= <-] p c Hp; exists c; split; [exact Hp|apply evolves_refl]|].
    destruct (streams s !! _) as [q|];
      [|intros [= <-] p c Hp; exists c; split; [exact Hp|apply evolves_refl]].
    destruct (heap s !! q) as [c0|] eqn:Hq; [|discriminate].
    destruct (Allow now (RateLimiter c0)) as [ok lim].
    assert (H1 : ∀ p c, heap s !! p = Some c →
                 ∃ c', heap (store q (set_RateLimiter c0 lim) s) !! p = Some c' ∧ evolves c c')
      by (apply (store_evolves q _ s c0 Hq); repeat split; auto).
    destruct ok; cbn [negb forget]; [|intros [= <-]; exact H1].
    destruct (_ =? _)%nat; intros [= <-]; exact H1.
  - unfold Leave. destruct (decide _);
      [intros [= <-] p c Hp; exists c; split; [exact Hp|apply evolves_refl]|].
    destruct (streams s !! _) as [q|];
      [|intros [= <-] p c Hp; exists c; split; [exact Hp|apply evolves_refl]].
    destruct (close_client q _) as [[] s1|] eqn:E; [|discriminate].
    intros [= <-]. exact (close_client_evolves _ _ _ E).
  - unfold GetMessage, GetMessage_lookup.
    destruct (decide _);
      [intros [= <-] p c Hp; exists c; split; [exact Hp|apply evolves_refl]|].
    destruct (streams s !! _) as [q|];
      [|intros [= <-] p c Hp; exists c; split; [exact Hp|apply evolves_refl]].
    destruct (heap s !! q) as [c0|] eqn:Hq; [|discriminate].
    assert (H1 : ∀ p c, heap s !! p = Some c →
                 ∃ c', heap (store q (set_LastSeen c0 now) s) !! p = Some c' ∧ evolves c c')
      by (apply (store_evolves q _ s c0 Hq); repeat split; auto).
    unfold GetMessage_select, try_recv.
    rewrite (store_lookup_eq q _ c0 s Hq). cbn [Ch set_LastSeen andb].
    destruct (ch_buf (Ch c0)) as [|m rest] eqn:Hb.
    + destruct (ch_closed (Ch c0)); cbn; intros [= <-]; exact H1.
    + cbn. intros [= <-]. rewrite store_store.
      apply (store_evolves q _ s c0 Hq). split; [reflexivity|]. split; [reflexivity|].
      cbn. intros Hcl. split; [exact Hcl|]. rewrite Hb. now apply suffix_cons_r.
  - unfold run_goroutine. destruct (goroutines s !! i) as [[q m]|];
      [|intros [= <-] p c Hp; exists c; split; [exact Hp|apply evolves_refl]].
    unfold deliver, try_send. cbn [fst snd heap set_goroutines].
    destruct (heap s !! q) as [c0|] eqn:Hq; [|discriminate].
    destruct (ch_closed (Ch c0)) eqn:Hc; [discriminate|].
    destruct (_ <? _)%nat; intros [= <-];
      [|intros p c Hp; exists c; split; [exact Hp|apply evolves_refl]].
    apply (store_evolves q _ (set_goroutines s _) c0 Hq).
    split; [reflexivity|]. split; [reflexivity|]. congruence.
  - apply cleanup_evolves.
  - intros [= <-]. unfold rounding. destruct (heap s !! q0) as [c0|] eqn:Hq;
      [|intros p c Hp; exists c; split; [exact Hp|apply evolves_refl]].
    apply (store_evolves q0 _ s c0 Hq). repeat split; auto.
Qed.

Lemma run_evolves es :
  ∀ s s', run es s = Done tt s' →
    ∀ p c, heap s !! p = Some c → ∃ c', heap s' !! p = Some c' ∧ evolves c c'.
Proof.
  induction es as [|e es IH]; intros s s'; cbn [run].
  - intros [= <-] p c Hp. exists c. split; [exact Hp|apply evolves_refl].
  - destruct (step e s) as [[] s1|] eqn:E; [|discriminate].
    intros Hrun p c Hp.
    destruct (step_evolves e s s1 E p c Hp) as (c1 & Hp1 & He1).
    destruct (IH s1 s' Hrun p c1 Hp1) as (c' & Hp' & He').
    exists c'. split; [exact Hp'|]. eapply evolves_trans; eassumption.
Qed.

(** X4: over every run that does not panic, from any state, an allocated
    client stays at its address with its identifier and the capacity of its
    channel; once its channel is closed it stays closed, and no message is
    added to it: what it holds afterwards is a suffix of what it held. *)
Theorem X4_closed_mailbox_stays_closed es s s' p c :
  run es s = Done tt s' → heap s !! p = Some c →
  ∃ c', heap s' !! p = Some c'
    ∧ ID c' = ID c
    ∧ ch_cap (Ch c') = ch_cap (Ch c)
    ∧ (ch_closed (Ch c) = true →
       ch_closed (Ch c') = true ∧ ch_buf (Ch c') `suffix_of` ch_buf (Ch c)).
Proof.
  intros Hrun Hp. destruct (run_evolves es s s' Hrun p c Hp) as (c' & Hp' & He).
  exists c'. split; [exact Hp'|exact He].
Qed.

(** After [b] has left, [b] joins again and polls: the client that left is
    still at address 1, closed. *)
Lemma X4_closed_mailbox_witness :
  ∃ c', heap (run_state [EJoin 0 req_a; EJoin 0 req_b; ESendMessage 1 hi_from_a;
                         ELeave (mkLeaveRequest "b"); EJoin 9 req_b;
                         EGetMessage 10 (mkMessageRequest "b")]) !! 1%nat = Some c'
        ∧ ID c' = "b"
        ∧ ch_cap (Ch c') = 10%nat
        ∧ (true = true → ch_closed (Ch c') = true ∧ ch_buf (Ch c') `suffix_of` []).
Proof.
  apply (X4_closed_mailbox_stays_closed
           [EJoin 9 req_b; EGetMessage 10 (mkMessageRequest "b")] b_left _ 1%nat
           (mkClient "b" (mkChan [] 10 true) 0 (NewLimiter 1 5)));
    vm_compute; reflexivity.
Defined.

(** ** Panics *)

Lemma Join_goroutines now req s r s' :
  Join now req s = Done r s' → goroutines s' = goroutines s.
Proof.
  unfold Join. destruct (decide _); [|destruct (streams s !! _)]; now intros [= <- <-].
Qed.

Lemma Leave_goroutines req s r s' :
  Leave req s = Done r s' → goroutines s' = goroutines s.
Proof.
  unfold Leave. destruct (decide _); [now intros [= <- <-]|].
  destruct (streams s !! _) as [q|]; [|now intros [= <- <-]].
  unfold close_client. cbn [heap set_streams].
  destruct (heap s !! q); [|discriminate].
  destruct (close_chan _); [|discriminate]. now intros [= <- <-].
Qed.

Lemma GetMessage_goroutines now req s r s' :
  GetMessage now req s = Done r s' → goroutines s' = goroutines s.
Proof.
  unfold GetMessage, GetMessage_lookup.
  destruct (decide _); [now intros [= <- <-]|].
  destruct (streams s !! _) as [q|]; [|now intros [= <- <-]].
  destruct (heap s !! q) as [c|] eqn:Hh; [|discriminate].
  unfold GetMessage_select, try_recv.
  rewrite (store_lookup_eq q _ c s Hh). cbn [Ch set_LastSeen andb].
  destruct (ch_buf (Ch c)); [destruct (ch_closed (Ch c))|]; cbn; now intros [= <- <-].
Qed.

(** The goroutines after a step were pending before or were started for a
    registered client. *)
Lemma step_goroutines e s s' :
  wf s → step e s = Done tt s' →
  ∀ q m, (q, m) ∈ goroutines s' →
    (q, m) ∈ goroutines s ∨ ∃ id, streams s !! id = Some q.
Proof.
  intros Hwf. destruct e as [now req|now req|req|now req|i|now|q0 b0]; cbn [step].
  - destruct (Join now req s) eqn:E; [|discriminate]. intros [= <-] q m Hin.
    left. now rewrite (Join_goroutines _ _ _ _ _ E) in Hin.
  - destruct (SendMessage now req s) as [r s1|] eqn:E; [|discriminate].
    intros [= <-] q m Hin. unfold SendMessage in E.
    destruct (decide _); [injection E as <- <-; now left|].
    destruct (_ <? _)%nat; [injection E as <- <-; now left|].
    destruct (streams s !! _) as [p|]; [|injection E as <- <-; now left].
    destruct (heap s !! p) as [c|]; [|discriminate].
    destruct (Allow now (RateLimiter c)) as [[|] lim]; cbn [negb] in E;
      [|injection E as <- <-; now left].
    assert (Hg : goroutines s1
                 = goroutines s ++ fanout (SendMessageRequest_From req)
                     (SendMessageRequest_From req +:+ ": " +:+ SendMessageRequest_Message req) s)
      by (destruct (_ =? _)%nat; injection E as <- <-; reflexivity).
    rewrite Hg in Hin. apply elem_of_app in Hin as [Hin|Hin]; [now left|right].
    apply elem_of_fanout in Hin as (_ & id & _ & Hid). eauto.
  - destruct (Leave req s) eqn:E; [|discriminate]. intros [= <-] q m Hin.
    left. now rewrite (Leave_goroutines _ _ _ _ E) in Hin.
  - destruct (GetMessage now req s) eqn:E; [|discriminate]. intros [= <-] q m Hin.
    left. now rewrite (GetMessage_goroutines _ _ _ _ _ E) in Hin.
  - unfold run_goroutine. destruct (goroutines s !! i) as [g|]; [|intros [= <-]; now left].
    unfold deliver. cbn [heap set_goroutines].
    destruct (heap s !! g.1); [|discriminate].
    destruct (try_send _ _); intros [= <-] q m Hin; left;
      cbn [goroutines store set_heap set_goroutines] in Hin;
      eapply list_elem_of_delete_inv; eassumption.
  - destruct (cleanup_spec now s Hwf) as (s1 & -> & _ & Hg & _).
    intros [= <-] q m Hin. left. now rewrite Hg in Hin.
  - intros [= <-] q m Hin. left. now rewrite rounding_goroutines in Hin.
Qed.

Lemma pending_step e s s' :
  wf s → pending_ok s → step e s = Done tt s' → pending_ok s'.
Proof.
  intros Hwf Hp E q m Hin.
  assert (Hq : is_Some (heap s !! q)).
  { destruct (step_goroutines e s s' Hwf E q m Hin) as [Hold|[id Hid]].
    - apply lookup_lt_is_Some. eapply Hp, Hold.
    - destruct (Hwf _ _ Hid) as (c & Hc & _). eauto. }
  destruct Hq as [c Hc].
  destruct (step_evolves e s s' E q c Hc) as (c' & Hc' & _).
  eapply lookup_lt_Some, Hc'.
Qed.

Lemma pending_reachable s : reachable s → pending_ok s.
Proof.
  intros [es Hes].
  assert (H : ∀ es s0 s1, wf s0 → pending_ok s0 → run es s0 = Done tt s1 → pending_ok s1).
  { clear. induction es as [|e es IH]; intros s0 s1 Hwf Hn; cbn [run].
    - now intros [= <-].
    - destruct (step e s0) as [[] s2|] eqn:E; [|discriminate].
      apply IH; [eapply wf_step; eauto|eapply pending_step; eauto]. }
  apply (H es NewChatService s); [apply wf_NewChatService| |exact Hes].
  intros q m Hin. cbn in Hin. inversion Hin.
Qed.

(** X5: in the states of the service the only step that panics is a
    goroutine of the fan-out that sends on a closed channel.  The four
    operations and the cleanup loop never panic: no nil client is
    dereferenced and no channel is closed twice. *)
Theorem X5_only_a_late_goroutine_panics e s v :
  reachable s → step e s = Panic v →
  ∃ i q m c,
    e = EGo i ∧ goroutines s !! i = Some (q, m)
    ∧ heap s !! q = Some c ∧ ch_closed (Ch c) = true
    ∧ v = SendOnClosedChannel.
Proof.
  intros Hreach. pose proof (wf_reachable s Hreach) as Hwf.
  pose proof (pending_reachable s Hreach) as Hpend.
  destruct e as [now req|now req|req|now req|i|now|q0 b0]; cbn [step].
  - unfold Join. destruct (decide _); [|destruct (streams s !! _)]; discriminate.
  - unfold SendMessage. destruct (decide _); [discriminate|].
    destruct (_ <? _)%nat; [discriminate|].
    destruct (streams s !! _) as [p|] eqn:Hs; [|discriminate].
    destruct (Hwf _ _ Hs) as (c & -> & _).
    destruct (Allow now (RateLimiter c)) as [[|] lim]; cbn [negb]; [|discriminate].
    destruct (_ =? _)%nat; discriminate.
  - destruct (decide (LeaveRequest_ID req = "")) as [He|Hne].
    { unfold Leave. destruct (decide _); [discriminate|contradiction]. }
    destruct (streams s !! LeaveRequest_ID req) as [p|] eqn:Hs.
    + destruct (Hwf _ _ Hs) as (c & Hh & _ & Hopen).
      rewrite (Leave_registered req s p c Hne (conj Hs Hh) Hopen). discriminate.
    + rewrite Leave_absent by assumption. discriminate.
  - destruct (decide (MessageRequest_ID req = "")) as [He|Hne].
    { unfold GetMessage, GetMessage_lookup. destruct (decide _); [discriminate|contradiction]. }
    destruct (streams s !! MessageRequest_ID req) as [p|] eqn:Hs.
    + destruct (Hwf _ _ Hs) as (c & Hh & _ & Hopen).
      rewrite (GetMessage_registered now req s p c Hne (conj Hs Hh)).
      destruct (ch_buf (Ch c)); discriminate.
    + rewrite GetMessage_absent by assumption. discriminate.
  - unfold run_goroutine. destruct (goroutines s !! i) as [[q m]|] eqn:Hg; [|discriminate].
    assert (Hq : is_Some (heap s !! q)).
    { apply lookup_lt_is_Some. apply (Hpend q m). eapply list_elem_of_lookup_2, Hg. }
    destruct Hq as [c Hc]. unfold deliver, try_send. cbn [fst snd heap set_goroutines].
    rewrite Hc. destruct (ch_closed (Ch c)) eqn:Hcl.
    + intros [= <-]. exists i, q, m, c. now repeat split.
    + destruct (_ <? _)%nat; discriminate.
  - destruct (cleanup_spec now s Hwf) as (s1 & -> & _). discriminate.
  - discriminate.
Qed.

(** The goroutine for [b] runs after [b] has left. *)
Lemma X5_late_goroutine_witness :
  ∃ i q m c,
    EGo 0 = EGo i ∧ goroutines b_left !! i = Some (q, m)
    ∧ heap b_left !! q = Some c ∧ ch_closed (Ch c) = true
    ∧ SendOnClosedChannel = SendOnClosedChannel.
Proof.
  apply (X5_only_a_late_goroutine_panics (EGo 0) b_left SendOnClosedChannel).
  - eapply run_state_reachable. vm_compute. reflexivity.
  - vm_compute. reflexivity.
Defined.

(** ** What [SendMessage] leaves alone *)

(** X6: a call of [SendMessage] that returns changes no registration, no
    mailbox and no [LastSeen]: nothing is delivered by the call itself, which
    only adds goroutines to the pending ones and updates the limiter of the
    sender.  A call that fails with anything but [ERR_NO_RECEIVERS] leaves the
    state exactly as it was (a refused call takes no token). *)
Theorem X6_SendMessage_delivers_nothing_itself now req s r s' :
  SendMessage now req s = Done r s' →
  streams s' = streams s
  ∧ length (heap s') = length (heap s)
  ∧ (∀ p c, heap s !! p = Some c →
       ∃ c', heap s' !! p = Some c'
             ∧ ID c' = ID c ∧ Ch c' = Ch c ∧ LastSeen c' = LastSeen c)
  ∧ (∃ started, goroutines s' = goroutines s ++ started)
  ∧ (∀ e, r = Fail e → e ≠ ErrNoReceivers → s' = s).
Proof.
  intros H.
  assert (Hsame : ∀ r0, Done r0 s = Done r s' →
            streams s' = streams s
            ∧ length (heap s') = length (heap s)
            ∧ (∀ p c, heap s !! p = Some c →
                 ∃ c', heap s' !! p = Some c'
                       ∧ ID c' = ID c ∧ Ch c' = Ch c ∧ LastSeen c' = LastSeen c)
            ∧ (∃ started, goroutines s' = goroutines s ++ started)
            ∧ (∀ e, r = Fail e → e ≠ ErrNoReceivers → s' = s)).
  { intros r0 [= <- <-]. split; [reflexivity|]. split; [reflexivity|].
    split; [intros p c Hp; exists c; now repeat split|].
    split; [exists []; now rewrite app_nil_r|reflexivity]. }
  unfold SendMessage in H.
  destruct (decide _); [exact (Hsame _ H)|].
  destruct (_ <? _)%nat; [exact (Hsame _ H)|].
  destruct (streams s !! _) as [q|]; [|exact (Hsame _ H)].
  destruct (heap s !! q) as [c0|] eqn:Hq; [|discriminate].
  destruct ((Allow now (RateLimiter c0)).1) eqn:HA.
  - destruct (Allow now (RateLimiter c0)) as [ok lim]. cbn [fst] in HA. subst ok.
    cbn [negb] in H.
    assert (Hheap : ∀ p c, heap s !! p = Some c →
              ∃ c', heap (store q (set_RateLimiter c0 lim) s) !! p = Some c'
                    ∧ ID c' = ID c ∧ Ch c' = Ch c ∧ LastSeen c' = LastSeen c).
    { intros p c Hp. destruct (decide (q = p)) as [E|Hne].
      - subst p. rewrite Hq in Hp. injection Hp as <-. eexists.
        split; [eapply store_lookup_eq, Hq|]. now repeat split.
      - exists c. rewrite store_lookup_ne by assumption. now repeat split. }
    destruct (_ =? _)%nat; injection H as <- <-;
      (split; [reflexivity|]); (split; [apply store_length|]);
      (split; [exact Hheap|]); (split; [eexists; reflexivity|]).
    + intros e [= <-] Hne. contradiction.
    + intros e [=].
  - pose proof (Allow_false (RateLimiter c0) now HA) as Hlim.
    destruct (Allow now (RateLimiter c0)) as [ok lim]. cbn [fst snd] in HA, Hlim.
    subst ok lim. cbn [negb] in H. rewrite store_same in H by (now destruct c0).
    exact (Hsame _ H).
Qed.

(** Client [a] of the two clients sends "hi". *)
Lemma X6_SendMessage_witness :
  ∃ s', SendMessage 5 hi_from_a two_clients
        = Done (Ok (mkSendMessageResponse true "Message broadcasted to clients")) s'
        ∧ streams s' = streams two_clients
        ∧ heap s' !! 1%nat = heap two_clients !! 1%nat.
Proof.
  destruct (SendMessage 5 hi_from_a two_clients) as [r s'|v] eqn:E;
    [|vm_compute in E; discriminate].
  destruct (X6_SendMessage_delivers_nothing_itself 5 hi_from_a two_clients r s' E)
    as (Hs & _).
  exists s'. vm_compute in E. injection E as <- <-.
  split; [reflexivity|]. split; [exact Hs|]. vm_compute. reflexivity.
Defined.

Lemma send_all_alive id p calls :
  ∀ s seen rs s',
    wf s → alive s id p seen → send_all calls s = Done rs s' →
    wf s' ∧ alive s' id p seen.
Proof.
  induction calls as [|[t req] calls IH]; intros s seen rs s' Hwf Ha; cbn [send_all].
  - intros [= <- <-]. now split.
  - destruct (SendMessage t req s) as [r s1|] eqn:E; [|discriminate].
    destruct (send_all calls s1) as [rs1 s2|] eqn:E1; [|discriminate].
    intros [= <- <-]. eapply IH; [| |exact E1].
    + eapply wf_SendMessage; eauto.
    + eapply alive_SendMessage; eauto.
Qed.

(** X7: sending is not activity.  However many calls of [SendMessage] are
    made, by whomever, no client's [LastSeen] moves; so a client that was
    last seen more than five minutes before a tick of the cleanup loop is
    evicted by it, even if it has been sending all along. *)
Theorem X7_sending_does_not_keep_alive now calls s a p c rs s' :
  reachable s → registered s a p c →
  send_all calls s = Done rs s' →
  stale now c →
  ∃ c' s'',
    registered s' a p c' ∧ LastSeen c' = LastSeen c
    ∧ cleanup now s' = Done tt s''
    ∧ streams s'' !! a = None.
Proof.
  intros Hreach Hr Hsend Hst. pose proof (wf_reachable s Hreach) as Hwf.
  destruct (send_all_alive a p calls s (LastSeen c) rs s' Hwf) as (Hwf' & c' & Hr' & Hseen);
    [now exists c|exact Hsend|].
  destruct (cleanup_spec now s' Hwf') as (s'' & Hc & _ & _ & _ & Hgone & _).
  exists c', s''. split; [exact Hr'|]. split; [exact Hseen|]. split; [exact Hc|].
  apply (Hgone a p c' Hr'). unfold stale in *. now rewrite Hseen.
Qed.

(** Client [a] sends at 100, 200 and 300 seconds, successfully, and is
    evicted by the tick at 301 seconds. *)
Lemma X7_sending_witness :
  ∃ s' c' s'',
    send_all [(100 * time.Second, hi_from_a); (200 * time.Second, hi_from_a);
              (300 * time.Second, hi_from_a)] two_clients
    = Done (replicate 3 (Ok (mkSendMessageResponse true "Message broadcasted to clients"))) s'
    ∧ registered s' "a" 0%nat c' ∧ LastSeen c' = 0
    ∧ cleanup (301 * time.Second) s' = Done tt s''
    ∧ streams s'' !! "a" = None.
Proof.
  destruct (send_all [(100 * time.Second, hi_from_a); (200 * time.Second, hi_from_a);
                      (300 * time.Second, hi_from_a)] two_clients) as [rs s'|v] eqn:E;
    [|vm_compute in E; discriminate].
  assert (Hreach : reachable two_clients)
    by (eapply run_state_reachable; vm_compute; reflexivity).
  assert (Hr : registered two_clients "a" 0%nat
                 (mkClient "a" (make_chan 10) 0 (NewLimiter 1 5)))
    by (split; vm_compute; reflexivity).
  assert (Hst : stale (301 * time.Second) (mkClient "a" (make_chan 10) 0 (NewLimiter 1 5)))
    by (unfold stale; vm_compute; reflexivity).
  destruct (X7_sending_does_not_keep_alive (301 * time.Second) _ two_clients "a" 0%nat _
              rs s' Hreach Hr E Hst) as (c' & s'' & Hr' & Hseen & Hc & Hs).
  exists s', c', s''. vm_compute in E. injection E as <- <-.
  split; [reflexivity|]. split; [exact Hr'|]. split; [exact Hseen|].
  split; [exact Hc|exact Hs].
Defined.

(** ** The size of a fan-out *)

Lemma filter_all {A : Type} (P : A → Prop) `{∀ x, Decision (P x)} (l : list A) :
  Forall P l → filter P l = l.
Proof.
  induction 1 as [|x l Hx Hl IH]; [reflexivity|].
  rewrite filter_cons_True by assumption. now rewrite IH.
Qed.

Lemma fanout_length from m s p :
  streams s !! from = Some p → S (length (fanout from m s)) = size (streams s).
Proof.
  intros Hs. unfold fanout. rewrite length_fmap.
  rewrite <- (map_to_list_delete (streams s) from p Hs).
  rewrite filter_cons_False by (cbn; tauto).
  rewrite filter_all.
  - rewrite length_map_to_list, map_size_delete, Hs.
    assert (size (streams s) ≠ 0%nat); [|lia].
    intros H0. apply map_size_empty_iff in H0. rewrite H0 in Hs.
    now rewrite lookup_empty in Hs.
  - apply Forall_forall. intros [id q] Hin. apply elem_of_map_to_list in Hin.
    apply lookup_delete_Some in Hin as [Hne _]. cbn. congruence.
Qed.

(** X8: a valid call by a registered sender that the limiter allows starts
    exactly one goroutine for each other registered client, that is, as many
    as the registry has entries but one; it fails with [ERR_NO_RECEIVERS]
    exactly when the sender is the only registered client, and succeeds
    otherwise. *)
Theorem X8_one_goroutine_per_other_client now req s a p c :
  valid_from a req → registered s a p c →
  (Allow now (RateLimiter c)).1 = true →
  ∃ r s',
    SendMessage now req s = Done r s'
    ∧ S (length (goroutines s') - length (goroutines s)) = size (streams s)
    ∧ (r = Fail ErrNoReceivers ↔ size (streams s) = 1%nat)
    ∧ (r = Ok (mkSendMessageResponse true "Message broadcasted to clients")
       ↔ (1 < size (streams s))%nat).
Proof.
  intros Hv Hr HA.
  pose proof (SendMessage_allowed now req s a p c Hv Hr HA) as E. cbv zeta in E.
  set (message := a +:+ ": " +:+ SendMessageRequest_Message req) in *.
  pose proof (fanout_length a message s p (proj1 Hr)) as Hlen.
  destruct (decide (fanout a message s = [])) as [Hnil|Hnn]; eexists _, _;
    (split; [exact E|]); cbn [goroutines set_goroutines];
    rewrite length_app, Nat.add_comm, Nat.add_sub; (split; [exact Hlen|]).
  - rewrite Hnil in Hlen. cbn in Hlen. split; split; try discriminate; try lia; reflexivity.
  - assert (length (fanout a message s) ≠ 0%nat)
      by (destruct (fanout a message s); [contradiction|discriminate]).
    split; split; try discriminate; try lia; reflexivity.
Qed.

(** Client [a] alone, and with [b]. *)
Lemma X8_fanout_witness :
  (∃ r s', SendMessage 5 hi_from_a one_client = Done r s' ∧ r = Fail ErrNoReceivers)
  ∧ (∃ r s', SendMessage 5 hi_from_a two_clients = Done r s'
             ∧ r = Ok (mkSendMessageResponse true "Message broadcasted to clients")).
Proof.
  assert (Hv : valid_from "a" hi_from_a)
    by (repeat split; [discriminate|discriminate|vm_compute; lia]).
  split.
  - destruct (X8_one_goroutine_per_other_client 5 hi_from_a one_client "a" 0%nat
                (mkClient "a" (make_chan 10) 0 (NewLimiter 1 5)) Hv)
      as (r & s' & E & _ & [_ Hno] & _).
    + split; vm_compute; reflexivity.
    + vm_compute. reflexivity.
    + exists r, s'. split; [exact E|]. apply Hno. vm_compute. reflexivity.
  - destruct (X8_one_goroutine_per_other_client 5 hi_from_a two_clients "a" 0%nat
                (mkClient "a" (make_chan 10) 0 (NewLimiter 1 5)) Hv)
      as (r & s' & E & _ & _ & [_ Hok]).
    + split; vm_compute; reflexivity.
    + vm_compute. reflexivity.
    + exists r, s'. split; [exact E|]. apply Hok. vm_compute. lia.
Defined.

(** ** One tick of the cleanup loop, exactly *)

Lemma reap_noop now (l : list (string * ptr)) s :
  (∀ id p, (id, p) ∈ l → ∃ c, heap s !! p = Some c ∧ ¬ stale now c) →
  foldl (reap now) (Done tt s) l = Done tt s.
Proof.
  induction l as [|[id p] l IH]; intros H; cbn [foldl]; [reflexivity|].
  destruct (H id p) as (c & Hc & Hst); [left|].
  rewrite (reap_fresh now s id p c Hc Hst). apply IH.
  intros id' p' Hin. apply (H id' p'). now right.
Qed.

(** X9: a tick of the cleanup loop in a state of the service never panics
    and removes exactly the stale clients: an identifier is registered
    afterwards if and only if it was registered before for a client that is
    not stale, at the same address, and the pending goroutines are as before.
    A second tick at the same clock reading changes nothing, and neither does
    a tick that finds no stale client. *)
Theorem X9_cleanup_removes_exactly_the_stale now s :
  reachable s →
  ∃ s',
    cleanup now s = Done tt s'
    ∧ (∀ id p, streams s' !! id = Some p ↔
               ∃ c, registered s id p c ∧ ¬ stale now c)
    ∧ (∀ id p c, registered s id p c → ¬ stale now c → registered s' id p c)
    ∧ goroutines s' = goroutines s
    ∧ cleanup now s' = Done tt s'
    ∧ ((∀ id p c, registered s id p c → ¬ stale now c) → s' = s).
Proof.
  intros Hreach. pose proof (wf_reachable s Hreach) as Hwf.
  destruct (cleanup_spec now s Hwf) as (s' & Hc & Hwf' & Hg & Hkeep & Hgone & Hnone).
  assert (Hiff : ∀ id p, streams s' !! id = Some p ↔
                         ∃ c, registered s id p c ∧ ¬ stale now c).
  { intros id p. split.
    - intros Hs'. destruct (streams s !! id) as [q|] eqn:Hs;
        [|rewrite (Hnone id Hs) in Hs'; discriminate].
      destruct (Hwf _ _ Hs) as (c & Hh & _).
      destruct (Z_lt_dec (5 * time.Minute) (now - LastSeen c)) as [Hst|Hst];
        fold (stale now c) in Hst.
      + destruct (Hgone id q c (conj Hs Hh) Hst) as [Hn _]. congruence.
      + destruct (Hkeep id q c (conj Hs Hh) Hst) as [Hs2 _].
        assert (q = p) by congruence. subst q. exists c. now repeat split.
    - intros (c & Hr & Hst). apply (Hkeep id p c Hr Hst). }
  exists s'. split; [exact Hc|]. split; [exact Hiff|]. split; [exact Hkeep|].
  split; [exact Hg|]. split.
  - unfold cleanup. apply reap_noop. intros id p Hin.
    apply elem_of_map_to_list, Hiff in Hin as (c & Hr & Hst).
    exists c. split; [apply (Hkeep id p c Hr Hst)|exact Hst].
  - intros Hall. unfold cleanup in Hc. rewrite reap_noop in Hc; [congruence|].
    intros id p Hin. apply elem_of_map_to_list in Hin.
    destruct (Hwf _ _ Hin) as (c & Hh & _). exists c. split; [exact Hh|].
    apply (Hall id p c). now split.
Qed.

(** A tick at 301 seconds removes both of the two clients. *)
Lemma X9_cleanup_witness :
  ∃ s', cleanup (301 * time.Second) two_clients = Done tt s'
        ∧ streams s' = ∅
        ∧ cleanup (301 * time.Second) s' = Done tt s'.
Proof.
  assert (Hreach : reachable two_clients)
    by (eapply run_state_reachable; vm_compute; reflexivity).
  destruct (X9_cleanup_removes_exactly_the_stale (301 * time.Second) two_clients Hreach)
    as (s' & Hc & _ & _ & _ & Hagain & _).
  exists s'. split; [exact Hc|]. split; [|exact Hagain].
  vm_compute in Hc. injection Hc as <-. reflexivity.
Defined.

(** ** The invariants of the registry *)

(** X10: in every state of the service a registered client has a non-empty
    identifier, which is the one stored in the client and is registered at
    this address only; its channel is open, has capacity 10 and holds at most
    10 messages; and its limiter has limit 1 and burst 5. *)
Theorem X10_registered_clients_are_well_formed s id p c :
  reachable s → registered s id p c →
  id ≠ "" ∧ ID c = id
  ∧ (∀ id', streams s !! id' = Some p → id' = id)
  ∧ ch_closed (Ch c) = false
  ∧ ch_cap (Ch c) = 10%nat ∧ (length (ch_buf (Ch c)) ≤ 10)%nat
  ∧ lim_limit (RateLimiter c) = 1 ∧ lim_burst (RateLimiter c) = 5.
Proof.
  intros Hreach Hr. pose proof (wf_reachable s Hreach) as Hwf.
  destruct (wf_registered s id p c Hwf Hr) as [Hid Hopen].
  destruct (bounded_reachable s Hreach p c (proj2 Hr)) as [[Hcap Hlen] (Hl & Hb & Ht)].
  split; [eapply (named_reachable s Hreach), Hr|]. split; [exact Hid|].
  split; [intros id' Hid'; eapply wf_unique; [exact Hwf|exact Hid'|apply Hr]|].
  split; [exact Hopen|]. split; [exact Hcap|]. split; [exact Hlen|].
  split; [exact Hl|exact Hb].
Qed.

(** Client [b] with its ten messages. *)
Lemma X10_well_formed_witness :
  ID client_b_full = "b" ∧ ch_closed (Ch client_b_full) = false
  ∧ length (ch_buf (Ch client_b_full)) = 10%nat.
Proof.
  assert (Hreach : reachable b_is_full)
    by (eapply run_state_reachable; vm_compute; reflexivity).
  assert (Hr : registered b_is_full "b" 1%nat client_b_full)
    by (split; vm_compute; reflexivity).
  destruct (X10_registered_clients_are_well_formed b_is_full "b" 1%nat client_b_full
              Hreach Hr) as (_ & Hid & _ & Hopen & _).
  split; [exact Hid|]. split; [exact Hopen|]. vm_compute. reflexivity.
Defined.

(** ** The rate of a sender over any window *)

(** X11: whatever calls of [SendMessage] a registered sender makes one
    after the other between the clock readings [lo] and [hi], none panics and
    the number that succeed is at most five plus one for every second of the
    window lengthened by a nanosecond, the nanosecond by which the limiter
    can grant a call early. *)
Theorem X11_rate_over_a_window s a p c calls lo hi :
  reachable s → registered s a p c →
  Forall (λ call, SendMessageRequest_From call.2 = a) calls →
  lo ≤ hi → issued lo hi calls →
  ∃ rs s',
    send_all calls s = Done rs s'
    ∧ length rs = length calls
    ∧ Z.of_nat (successes rs) * time.Second ≤ 5 * time.Second + (hi - lo) + 1.
Proof.
  intros Hreach Hr Hfrom Hlohi Hiss. pose proof (wf_reachable s Hreach) as Hwf.
  pose proof (proj2 (bounded_reachable s Hreach p c (proj2 Hr))) as Hok.
  destruct (send_all_tokens a p hi calls s c lo Hwf Hr Hok Hfrom Hlohi Hiss)
    as (rs & s' & E & HF & Hb).
  exists rs, s'. split; [exact E|]. split; [symmetry; eapply Forall2_length, HF|].
  pose proof (available_burst (RateLimiter c) lo).
  pose proof (successes_tokens_taken rs). time_lia.
Qed.

(** The six calls after the burst of [a]: within 0.6 seconds, one succeeds. *)
Lemma X11_rate_witness :
  ∃ rs s',
    send_all six_calls burst_spent = Done rs s'
    ∧ length rs = 6%nat
    ∧ Z.of_nat (successes rs) * time.Second
      ≤ 5 * time.Second + (1100000000 - 500000000) + 1.
Proof.
  apply (X11_rate_over_a_window burst_spent "a" 0%nat
           (mkClient "a" (make_chan 10) 0 (mkLimiter 1 5 0 0 false)) six_calls).
  - eapply run_state_reachable. vm_compute. reflexivity.
  - split; vm_compute; reflexivity.
  - repeat constructor.
  - lia.
  - vm_compute. intuition discriminate.
Defined.

(** ** Polling a mailbox *)

(** X12: calls of [GetMessage] made one after the other by a registered
    client return the buffered messages oldest first, one per call, and leave
    the others in the mailbox.  When none is left the next call waits: its
    [select] stays blocked until the ten seconds have passed and, with
    nothing delivered in the meantime, then fails with [ERR_NO_MESSAGES]. *)
Theorem X12_polls_return_messages_in_order t s id p c msgs rest :
  reachable s → registered s id p c →
  ch_buf (Ch c) = msgs ++ rest →
  ∃ s' c',
    poll (length msgs) t (mkMessageRequest id) s
    = Done ((λ m, Ok (mkMessageResponse m)) <$> msgs) s'
    ∧ registered s' id p c'
    ∧ ch_buf (Ch c') = rest
    ∧ (rest = [] →
       ∃ s1,
         GetMessage_lookup t (mkMessageRequest id) s' = Done (Ok p) s1
         ∧ (∀ elapsed pick, elapsed < 10 * time.Second →
              GetMessage_select elapsed pick p s1 = Blocked)
         ∧ (∀ elapsed pick, 10 * time.Second ≤ elapsed →
              GetMessage_select elapsed pick p s1
              = Ready (Done (Fail ErrNoMessages) s1))).
Proof.
  intros Hreach Hr Hb.
  assert (Hne : id ≠ "") by (eapply (named_reachable s Hreach), Hr).
  destruct (wf_registered s id p c (wf_reachable s Hreach) Hr) as [_ Hopen].
  destruct (poll_buffered t (mkMessageRequest id) p msgs Hne s c rest Hr Hb)
    as (s' & c' & Hp & Hr' & Hb').
  exists s', c'. split; [exact Hp|]. split; [exact Hr'|]. split; [exact Hb'|].
  intros He. rewrite He in Hb'.
  assert (Hopen' : ch_closed (Ch c') = false).
  { assert (Hrun : ∃ es, run es s = Done tt s').
    { clear -Hp. revert s Hp. generalize ((λ m, Ok (mkMessageResponse m)) <$> msgs).
      induction (length msgs) as [|n IH]; intros rs s; cbn [poll].
      - intros [= <- <-]. now exists [].
      - destruct (GetMessage t (mkMessageRequest id) s) as [r s1|] eqn:E; [|discriminate].
        destruct (poll n t (mkMessageRequest id) s1) as [rs1 s2|] eqn:E1; [|discriminate].
        intros [= <- <-]. destruct (IH _ _ E1) as (es & Hes).
        exists (EGetMessage t (mkMessageRequest id) :: es). cbn [run step]. now rewrite E. }
    destruct Hrun as (es & Hes).
    eapply wf_registered; [eapply wf_run; [eapply wf_reachable, Hreach|exact Hes]|exact Hr']. }
  eexists. exact (GetMessage_waits t (mkMessageRequest id) s' p c' Hne Hr' Hb' Hopen').
Qed.

(** Client [b] polls its ten messages; the eleventh call waits. *)
Lemma X12_polls_witness :
  ∃ s' c',
    poll 10 7 (mkMessageRequest "b") b_is_full
    = Done ((λ m, Ok (mkMessageResponse m)) <$> ch_buf (Ch client_b_full)) s'
    ∧ registered s' "b" 1%nat c'
    ∧ ch_buf (Ch c') = [].
Proof.
  destruct (X12_polls_return_messages_in_order 7 b_is_full "b" 1%nat client_b_full
              (ch_buf (Ch client_b_full)) []) as (s' & c' & Hp & Hr & Hb & _).
  - eapply run_state_reachable. vm_compute. reflexivity.
  - split; vm_compute; reflexivity.
  - now rewrite app_nil_r.
  - exists s', c'. split; [exact Hp|]. split; [exact Hr|exact Hb].
Defined.

(** ** The rendering of errors *)

Lemma has_bracket_cons b t :
  has_bracket (String b t) = false → b ≠ closing_bracket ∧ has_bracket t = false.
Proof.
  cbn [has_bracket]. destruct (Ascii.eqb b closing_bracket) eqn:E; [discriminate|].
  apply Ascii.eqb_neq in E. now split.
Qed.

Lemma append_bracket_inj c1 :
  ∀ c2 r1 r2,
    has_bracket c1 = false → has_bracket c2 = false →
    c1 +:+ String closing_bracket r1 = c2 +:+ String closing_bracket r2 →
    c1 = c2 ∧ r1 = r2.
Proof.
  induction c1 as [|b1 c1 IH]; intros [|b2 c2] r1 r2 H1 H2; cbn [String.append].
  - intros [= <-]. now split.
  - intros [= <- _]. apply has_bracket_cons in H2 as [Hne _]. contradiction.
  - intros [= -> _]. apply has_bracket_cons in H1 as [Hne _]. contradiction.
  - intros [= <- E]. apply has_bracket_cons in H1 as [_ H1].
    apply has_bracket_cons in H2 as [_ H2].
    destruct (IH c2 r1 r2 H1 H2 E) as [-> ->]. now split.
Qed.

Lemma length_append_string (a b : string) :
  String.length (a +:+ b) = (String.length a + String.length b)%nat.
Proof. induction a as [|x a IH]; simpl; [reflexivity|now f_equal]. Qed.

(** X13: the text of an error is ["[" ++ Code ++ "] " ++ detail], and for
    codes without a closing bracket, as all the codes of the service are, two
    errors have the same text only if they are the same error: the code and
    the detail can be read back from the text. *)
Theorem X13_error_text_determines_the_error e1 e2 :
  has_bracket (Code e1) = false → has_bracket (Code e2) = false →
  Forall (λ e, has_bracket (Code e) = false) service_errors
  ∧ String.length (Error e1) = (String.length (Code e1) + String.length (Err e1) + 3)%nat
  ∧ (Error e1 = Error e2 ↔ e1 = e2).
Proof.
  intros H1 H2. split; [repeat constructor|]. split.
  - unfold Error. rewrite !length_append_string. cbn [String.length]. lia.
  - split; [|now intros ->]. unfold Error. cbn [String.append]. intros [= E].
    destruct (append_bracket_inj (Code e1) (Code e2) _ _ H1 H2 E) as [Hc [= Hd]].
    destruct e1, e2. cbn in *. congruence.
Qed.

(** The two errors for an unknown identifier have different texts. *)
Lemma X13_error_text_witness :
  Error ErrUserNotFound = "[ERR_USER_NOT_FOUND] user not connected"
  ∧ (Error ErrUserNotFound = Error ErrSenderNotFound ↔ ErrUserNotFound = ErrSenderNotFound).
Proof.
  split; [reflexivity|].
  apply (X13_error_text_determines_the_error ErrUserNotFound ErrSenderNotFound);
    reflexivity.
Defined.

(** ** The routes *)

(** X14: [GET /receive/:id] in a state of the service, for the paths of
    [GetMessage] that do not wait.  An identifier that is not registered is
    answered 408, with the text of [ERR_USER_NOT_FOUND], and the state is
    unchanged; a registered client with a message in its mailbox is answered
    200 at once with the oldest message, which leaves the mailbox, and its
    [LastSeen] is the time of the request. *)
Theorem X14_receive_route now id s :
  reachable s → id ≠ "" →
  (streams s !! id = None →
   get_receive now id s
   = Done (mkResponse 408 (ErrorBody "[ERR_USER_NOT_FOUND] user not connected")) s)
  ∧ (∀ p c m rest,
       registered s id p c → ch_buf (Ch c) = m :: rest →
       ∃ s' c',
         get_receive now id s
         = Done (mkResponse 200 (JsonBody (mkMessageResponse m))) s'
         ∧ registered s' id p c'
         ∧ ch_buf (Ch c') = rest ∧ LastSeen c' = now).
Proof.
  intros Hreach Hne. unfold get_receive. split.
  - intros Hs. now rewrite GetMessage_absent by assumption.
  - intros p c m rest Hr Hb.
    rewrite (GetMessage_registered now (mkMessageRequest id) s p c Hne Hr), Hb.
    exists (store p (set_Ch (set_LastSeen c now)
                       (mkChan rest (ch_cap (Ch c)) (ch_closed (Ch c)))) s),
           (set_Ch (set_LastSeen c now) (mkChan rest (ch_cap (Ch c)) (ch_closed (Ch c)))).
    split; [reflexivity|]. split; [|split; reflexivity].
    split; [rewrite store_streams; apply Hr|eapply store_lookup_eq, Hr].
Qed.

(** An identifier that never joined polls the two clients. *)
Lemma X14_receive_witness :
  get_receive 3 "nobody" two_clients
  = Done (mkResponse 408 (ErrorBody "[ERR_USER_NOT_FOUND] user not connected")) two_clients.
Proof.
  assert (Hreach : reachable two_clients)
    by (eapply run_state_reachable; vm_compute; reflexivity).
  destruct (X14_receive_route 3 "nobody" two_clients Hreach) as [Hnone _];
    [discriminate|].
  apply Hnone. vm_compute. reflexivity.
Defined.

Lemma valid_from_dec a req : {valid_from a req} + {¬ valid_from a req}.
Proof.
  unfold valid_from. destruct (decide (SendMessageRequest_From req = a)); [|right; tauto].
  destruct (decide (a = "")); [right; tauto|].
  destruct (decide (SendMessageRequest_Message req = "")); [right; tauto|].
  destruct (le_lt_dec (String.length (SendMessageRequest_Message req)) 500);
    [left; tauto|right; lia].
Qed.

Lemma SendMessage_invalid now req s :
  ¬ valid_from (SendMessageRequest_From req) req →
  ∃ e, SendMessage now req s = Done (Fail e) s.
Proof.
  intros Hnv.
  destruct (decide (SendMessageRequest_From req = "" ∨ SendMessageRequest_Message req = ""))
    as [Hm|Hm].
  - eexists. now apply SendMessage_missing_field.
  - eexists. apply SendMessage_too_long; [tauto|tauto|].
    destruct (le_lt_dec (String.length (SendMessageRequest_Message req)) 500);
      [|assumption].
    exfalso. apply Hnv. unfold valid_from. tauto.
Qed.

(** X15: [POST /send] in a state of the service never panics and answers
    200 or 400.  It answers 200 exactly when the body binds to a request with
    a non-empty sender and a non-empty message of at most 500 bytes, the
    sender is registered, its limiter allows the call, and another client is
    registered.  Everything else is answered 400: a body that does not bind
    with "Invalid request" and the state unchanged, and a failure of the
    service, a rate limit or an unknown sender included, with the text of its
    error. *)
Theorem X15_send_route now bound s :
  reachable s →
  ∃ resp s',
    post_send now bound s = Done resp s'
    ∧ (status resp = http.StatusOK ∨ status resp = http.StatusBadRequest)
    ∧ (status resp = http.StatusOK ↔
       ∃ req p c,
         bound = Some req
         ∧ valid_from (SendMessageRequest_From req) req
         ∧ registered s (SendMessageRequest_From req) p c
         ∧ (Allow now (RateLimiter c)).1 = true
         ∧ (1 < size (streams s))%nat)
    ∧ (bound = None → resp = mkResponse 400 (ErrorBody "Invalid request") ∧ s' = s)
    ∧ (∀ req, bound = Some req → status resp = http.StatusBadRequest →
       ∃ e, SendMessage now req s = Done (Fail e) s' ∧ body resp = ErrorBody (Error e)).
Proof.
  intros Hreach. pose proof (wf_reachable s Hreach) as Hwf.
  destruct bound as [req|]; unfold post_send.
  2:{ eexists _, _. split; [reflexivity|]. split; [now right|].
      split; [split; [discriminate|intros (? & ? & ? & [=] & _)]|].
      split; [now split|discriminate]. }
  set (a := SendMessageRequest_From req).
  assert (Hfail : ∀ e s1, SendMessage now req s = Done (Fail e) s1 →
            ¬ (∃ req' p c, Some req = Some req'
                 ∧ valid_from (SendMessageRequest_From req') req'
                 ∧ registered s (SendMessageRequest_From req') p c
                 ∧ (Allow now (RateLimiter c)).1 = true
                 ∧ (1 < size (streams s))%nat) →
            ∃ resp s',
              match SendMessage now req s with
              | Done (Ok res) s' => Done (mkResponse http.StatusOK (JsonBody res)) s'
              | Done (Fail err) s' =>
                  Done (mkResponse http.StatusBadRequest (ErrorBody (Error err))) s'
              | Panic v => Panic v
              end = Done resp s'
              ∧ (status resp = http.StatusOK ∨ status resp = http.StatusBadRequest)
              ∧ (status resp = http.StatusOK ↔
                 ∃ req' p c, Some req = Some req'
                   ∧ valid_from (SendMessageRequest_From req') req'
                   ∧ registered s (SendMessageRequest_From req') p c
                   ∧ (Allow now (RateLimiter c)).1 = true
                   ∧ (1 < size (streams s))%nat)
              ∧ (Some req = None → resp = mkResponse 400 (ErrorBody "Invalid request") ∧ s' = s)
              ∧ (∀ req', Some req = Some req' → status resp = http.StatusBadRequest →
                 ∃ e, SendMessage now req' s = Done (Fail e) s'
                      ∧ body resp = ErrorBody (Error e))).
  { intros e s1 E Hnot. rewrite E. eexists _, _. split; [reflexivity|]. split; [now right|].
    split; [split; [discriminate|intros H; contradiction]|].
    split; [discriminate|]. intros req' [= <-] _. eauto. }
  destruct (valid_from_dec a req) as [Hv|Hnv].
  2:{ destruct (SendMessage_invalid now req s Hnv) as (e & E).
      apply (Hfail e s E). intros (req' & p & c & [= <-] & Hv & _). contradiction. }
  destruct (streams s !! a) as [p|] eqn:Hs.
  2:{ apply (Hfail _ s (SendMessage_sender_absent now req s Hv Hs)).
      intros (req' & p & c & [= <-] & _ & [Hs' _] & _). fold a in Hs'. congruence. }
  destruct (Hwf _ _ Hs) as (c & Hh & _).
  assert (Hr : registered s a p c) by now split.
  destruct ((Allow now (RateLimiter c)).1) eqn:HA.
  2:{ apply (Hfail _ s (SendMessage_refused now req s a p c Hv Hr HA)).
      intros (req' & p' & c' & [= <-] & _ & [Hs' Hh'] & HA' & _). fold a in Hs'.
      assert (p' = p) by congruence. subst p'.
      assert (c' = c) by congruence. subst c'. congruence. }
  pose proof (SendMessage_allowed now req s a p c Hv Hr HA) as E. cbv zeta in E.
  pose proof (fanout_length a (a +:+ ": " +:+ SendMessageRequest_Message req) s p Hs) as Hlen.
  destruct (decide _) as [Hnil|Hnn].
  - apply (Hfail _ _ E). intros (_ & _ & _ & _ & _ & _ & _ & Hsize).
    rewrite Hnil in Hlen. cbn [length] in Hlen. rewrite <- Hlen in Hsize. lia.
  - rewrite E. eexists _, _. split; [reflexivity|]. split; [now left|].
    split; [split; [intros _|reflexivity]|split; [discriminate|intros req' _ [=]]].
    exists req, p, c. split; [reflexivity|]. split; [exact Hv|]. split; [exact Hr|].
    split; [exact HA|].
    destruct (fanout a _ s); [contradiction|]. cbn [length] in Hlen.
    rewrite <- Hlen. lia.
Qed.

(** A rate-limited call is answered 400: the sixth call of [a] at time 0. *)
Lemma X15_send_route_witness :
  post_send 0 (Some hi_from_a) burst_spent
  = Done (mkResponse 400 (ErrorBody "[ERR_RATE_LIMIT] too many messages")) burst_spent.
Proof.
  assert (Hreach : reachable burst_spent)
    by (eapply run_state_reachable; vm_compute; reflexivity).
  destruct (X15_send_route 0 (Some hi_from_a) burst_spent Hreach)
    as (resp & s' & E & _). rewrite E. vm_compute in E. exact (eq_sym E).
Defined.

(** ** The order of delivery *)

Lemma run_goroutine_open k s q m c :
  goroutines s !! k = Some (q, m) → heap s !! q = Some c → ch_closed (Ch c) = false →
  run_goroutine k s
  = Done tt (store q (offer m c) (set_goroutines s (delete k (goroutines s)))).
Proof.
  intros Hg Hh Hc. unfold run_goroutine. rewrite Hg.
  now apply (deliver_open (set_goroutines s _) q c m).
Qed.

Lemma offer_buf m c :
  (length (ch_buf (Ch c)) < ch_cap (Ch c))%nat →
  offer m c = set_Ch c (mkChan (ch_buf (Ch c) ++ [m]) (ch_cap (Ch c)) (ch_closed (Ch c))).
Proof. intros H. unfold offer. apply Nat.ltb_lt in H. now rewrite H. Qed.

(** X16: messages reach a mailbox in the order in which the scheduler runs
    their goroutines, which need not be the order in which they were sent.
    Of two pending goroutines for the same registered client with room for
    both messages, running the older first puts its message first, and
    running the younger first puts the younger message first. *)
Theorem X16_delivery_follows_the_schedule s b pb cb i j m1 m2 :
  reachable s → registered s b pb cb →
  goroutines s !! i = Some (pb, m1) → goroutines s !! j = Some (pb, m2) →
  (i < j)%nat →
  (length (ch_buf (Ch cb)) + 2 ≤ 10)%nat →
  (∃ s1 s2 c',
     run_goroutine i s = Done tt s1 ∧ run_goroutine (j - 1) s1 = Done tt s2
     ∧ registered s2 b pb c' ∧ ch_buf (Ch c') = ch_buf (Ch cb) ++ [m1; m2])
  ∧ (∃ s1 s2 c',
       run_goroutine j s = Done tt s1 ∧ run_goroutine i s1 = Done tt s2
       ∧ registered s2 b pb c' ∧ ch_buf (Ch c') = ch_buf (Ch cb) ++ [m2; m1]).
Proof.
  intros Hreach Hr Hi Hj Hij Hroom.
  destruct (wf_registered s b pb cb (wf_reachable s Hreach) Hr) as [_ Hopen].
  destruct (bounded_reachable s Hreach pb cb (proj2 Hr)) as [[Hcap _] _].
  assert (Hboth : ∀ k1 k2 x1 x2,
            goroutines s !! k1 = Some (pb, x1) →
            delete k1 (goroutines s) !! k2 = Some (pb, x2) →
            ∃ s1 s2 c',
              run_goroutine k1 s = Done tt s1 ∧ run_goroutine k2 s1 = Done tt s2
              ∧ registered s2 b pb c' ∧ ch_buf (Ch c') = ch_buf (Ch cb) ++ [x1; x2]).
  { intros k1 k2 x1 x2 H1 H2.
    pose proof (run_goroutine_open k1 s pb x1 cb H1 (proj2 Hr) Hopen) as E1.
    set (s1 := store pb (offer x1 cb) (set_goroutines s (delete k1 (goroutines s)))) in *.
    assert (Ho1 : offer x1 cb
                  = set_Ch cb (mkChan (ch_buf (Ch cb) ++ [x1]) (ch_cap (Ch cb))
                                 (ch_closed (Ch cb))))
      by (apply offer_buf; lia).
    assert (Hh1 : heap s1 !! pb = Some (offer x1 cb))
      by (unfold s1; eapply store_lookup_eq; apply Hr).
    assert (E2 : run_goroutine k2 s1
                 = Done tt (store pb (offer x2 (offer x1 cb))
                              (set_goroutines s1 (delete k2 (goroutines s1))))).
    { apply run_goroutine_open; [exact H2|exact Hh1|]. rewrite Ho1. exact Hopen. }
    eexists s1, _, (offer x2 (offer x1 cb)). split; [exact E1|]. split; [exact E2|].
    split; [split; [apply Hr|eapply store_lookup_eq; exact Hh1]|].
    rewrite Ho1. rewrite offer_buf; cbn [Ch set_Ch ch_buf ch_cap].
    - now rewrite <- app_assoc.
    - rewrite length_app. cbn [length]. lia. }
  split.
  - apply Hboth; [exact Hi|]. rewrite list_lookup_delete_ge by lia.
    replace (S (j - 1)) with j by lia. exact Hj.
  - apply Hboth; [exact Hj|]. rewrite list_lookup_delete_lt by lia. exact Hi.
Qed.

(** The two broadcasts of [a] reach [b] in either order. *)
Lemma X16_delivery_witness :
  (∃ s1 s2 c',
     run_goroutine 0 two_sent = Done tt s1 ∧ run_goroutine (1 - 1) s1 = Done tt s2
     ∧ registered s2 "b" 1%nat c' ∧ ch_buf (Ch c') = [] ++ ["a: one"; "a: two"])
  ∧ (∃ s1 s2 c',
       run_goroutine 1 two_sent = Done tt s1 ∧ run_goroutine 0 s1 = Done tt s2
       ∧ registered s2 "b" 1%nat c' ∧ ch_buf (Ch c') = [] ++ ["a: two"; "a: one"]).
Proof.
  apply (X16_delivery_follows_the_schedule two_sent "b" 1%nat
           (mkClient "b" (make_chan 10) 0 (NewLimiter 1 5)) 0%nat 1%nat "a: one" "a: two").
  - eapply run_state_reachable. vm_compute. reflexivity.
  - split; vm_compute; reflexivity.
  - vm_compute. reflexivity.
  - vm_compute. reflexivity.
  - lia.
  - cbn. lia.
Defined.

(** ** A goroutine for a client that left *)

Lemma elem_of_delete_other {A : Type} (l : list A) i x y :
  x ∈ l → l !! i = Some y → x ≠ y → x ∈ delete i l.
Proof.
  intros Hx Hy Hne. rewrite (delete_Permutation l i y Hy) in Hx.
  apply elem_of_cons in Hx as [?|?]; [contradiction|assumption].
Qed.

(** A pending goroutine for a client whose channel is closed survives every
    step that does not panic. *)
Lemma doomed_step e s s' q m c :
  wf s → (q, m) ∈ goroutines s → heap s !! q = Some c → ch_closed (Ch c) = true →
  step e s = Done tt s' → (q, m) ∈ goroutines s'.
Proof.
  intros Hwf Hin Hq Hcl. destruct e as [now req|now req|req|now req|i|now|q0 b0]; cbn [step].
  - destruct (Join now req s) eqn:E; [|discriminate]. intros [= <-].
    now rewrite (Join_goroutines _ _ _ _ _ E).
  - destruct (SendMessage now req s) as [r s1|] eqn:E; [|discriminate]. intros [= <-].
    unfold SendMessage in E.
    destruct (decide _); [now injection E as <- <-|].
    destruct (_ <? _)%nat; [now injection E as <- <-|].
    destruct (streams s !! _) as [p|]; [|now injection E as <- <-].
    destruct (heap s !! p) as [c0|]; [|discriminate].
    destruct (Allow now (RateLimiter c0)) as [[|] lim]; cbn [negb] in E;
      [|now injection E as <- <-].
    destruct (_ =? _)%nat; injection E as <- <-;
      cbn [goroutines set_goroutines]; apply elem_of_app; now left.
  - destruct (Leave req s) eqn:E; [|discriminate]. intros [= <-].
    now rewrite (Leave_goroutines _ _ _ _ E).
  - destruct (GetMessage now req s) eqn:E; [|discriminate]. intros [= <-].
    now rewrite (GetMessage_goroutines _ _ _ _ _ E).
  - unfold run_goroutine. destruct (goroutines s !! i) as [[q' m']|] eqn:Hg;
      [|now intros [= <-]].
    destruct (decide ((q, m) = (q', m'))) as [[= <- <-]|Hne].
    + rewrite (deliver_closed (set_goroutines s _) q c m Hq Hcl). discriminate.
    + unfold deliver. cbn [fst snd heap set_goroutines].
      destruct (heap s !! q') as [c'|]; [|discriminate].
      destruct (try_send m' (Ch c')); intros [= <-];
        cbn [goroutines store set_heap set_goroutines];
        eapply elem_of_delete_other; eassumption.
  - destruct (cleanup_spec now s Hwf) as (s1 & -> & _ & Hg & _).
    intros [= <-]. now rewrite Hg.
  - intros [= <-]. now rewrite rounding_goroutines.
Qed.

Lemma doomed_run es :
  ∀ s s' q m c,
    wf s → (q, m) ∈ goroutines s → heap s !! q = Some c → ch_closed (Ch c) = true →
    run es s = Done tt s' →
    (q, m) ∈ goroutines s' ∧ ∃ c', heap s' !! q = Some c' ∧ ch_closed (Ch c') = true.
Proof.
  induction es as [|e es IH]; intros s s' q m c Hwf Hin Hq Hcl; cbn [run].
  - intros [= <-]. eauto.
  - destruct (step e s) as [[] s1|] eqn:E; [|discriminate].
    destruct (step_evolves e s s1 E q c Hq) as (c1 & Hq1 & _ & _ & Hcl1).
    apply (IH s1 s' q m c1); [eapply wf_step; eauto|eapply doomed_step; eauto
                              |exact Hq1|apply (Hcl1 Hcl)].
Qed.

(** X17: when a client leaves while a goroutine of a broadcast is still
    pending for it, nothing that the service does afterwards removes that
    goroutine or reopens the channel: after every run that has not panicked
    the goroutine is still pending, and scheduling it panics with a send on a
    closed channel. *)
Theorem X17_pending_goroutine_of_departed_client s b pb cb m r s1 es s2 :
  reachable s → registered s b pb cb →
  (pb, m) ∈ goroutines s →
  Leave (mkLeaveRequest b) s = Done r s1 →
  run es s1 = Done tt s2 →
  ∃ i, goroutines s2 !! i = Some (pb, m)
       ∧ step (EGo i) s2 = Panic SendOnClosedChannel.
Proof.
  intros Hreach Hr Hin HL Hrun. pose proof (wf_reachable s Hreach) as Hwf.
  assert (Hne : b ≠ "") by (eapply (named_reachable s Hreach), Hr).
  destruct (wf_registered s b pb cb Hwf Hr) as [_ Hopen].
  rewrite (Leave_registered (mkLeaveRequest b) s pb cb Hne Hr Hopen) in HL.
  injection HL as <- <-. cbn [LeaveRequest_ID] in Hrun.
  destruct (doomed_run es (evict b pb cb s) s2 pb m (set_Ch cb (closed_chan (Ch cb))))
    as (Hin2 & c2 & Hq2 & Hcl2).
  - now apply wf_evict.
  - exact Hin.
  - unfold evict. eapply store_lookup_eq. apply Hr.
  - reflexivity.
  - exact Hrun.
  - apply list_elem_of_lookup in Hin2 as [i Hi]. exists i. split; [exact Hi|].
    cbn [step]. unfold run_goroutine. rewrite Hi.
    now apply (deliver_closed (set_goroutines s2 _) pb c2 m).
Qed.

(** Client [a] has broadcast, [b] leaves, joins again and polls: the
    goroutine for the old client is still pending and panics when run. *)
Lemma X17_departed_witness :
  ∃ i, goroutines (run_state [EJoin 0 req_a; EJoin 0 req_b; ESendMessage 1 hi_from_a;
                              ELeave (mkLeaveRequest "b"); EJoin 9 req_b;
                              EGetMessage 10 (mkMessageRequest "b")]) !! i
       = Some (1%nat, "a: hi")
       ∧ step (EGo i)
           (run_state [EJoin 0 req_a; EJoin 0 req_b; ESendMessage 1 hi_from_a;
                       ELeave (mkLeaveRequest "b"); EJoin 9 req_b;
                       EGetMessage 10 (mkMessageRequest "b")])
         = Panic SendOnClosedChannel.
Proof.
  apply (X17_pending_goroutine_of_departed_client
           (run_state [EJoin 0 req_a; EJoin 0 req_b; ESendMessage 1 hi_from_a])
           "b" 1%nat (mkClient "b" (make_chan 10) 0 (NewLimiter 1 5)) "a: hi"
           (Ok (mkLeaveResponse true "User disconnected successfully")) b_left
           [EJoin 9 req_b; EGetMessage 10 (mkMessageRequest "b")]).
  - eapply run_state_reachable. vm_compute. reflexivity.
  - split; vm_compute; reflexivity.
  - vm_compute. left.
  - vm_compute. reflexivity.
  - vm_compute. reflexivity.
Defined.
